(** * Interface-Bench: a shallow embedding of the three benchmark programs

    The repository consists of three stand-alone Go programs that time
    [nbOps] calls of a method [Sum], first through a concrete handle and
    then through a [Summable] interface handle:

    - [concrete_vs_interface.go]                  (module [ValueRecv]),
    - [concrete_vs_interface_pointers.go]         (module [PtrRecv]),
    - [concrete_vs_interface_pointers_inplace.go] (module [InPlace]).

    The Go runtime the programs rely on (64-bit integers, addressable
    variables, the [for] statement, [time.Now], [fmt.Printf]) is modelled
    once, in module [Go]. *)

From Stdlib Require Import ZArith Lia Ascii.
From stdpp Require Import base gmap strings pretty.

Local Open Scope Z_scope.

(** ** The Go runtime *)

Module Go.

(** *** 64-bit signed integers ([int64], and [int] on amd64) *)

Definition min_int64 : Z := -9223372036854775808.
Definition max_int64 : Z := 9223372036854775807.

(** Go integer arithmetic wraps around silently (two's complement). *)
Definition wrap64 (z : Z) : Z :=
  (z + 9223372036854775808) `mod` 18446744073709551616 - 9223372036854775808.

Definition in_int64 (z : Z) : Prop := min_int64 ≤ z ≤ max_int64.

(** *** The world a program runs in

    [heap] holds the variables whose address is taken, [stdout] the
    strings written so far (one entry per [fmt.Printf] call), [clock] is
    the wall clock as an oracle: the [n]-th call of [time.Now] reads
    [clock n]; [ticks] counts the readings made so far. *)

Definition loc := positive.

Record World : Type := mkWorld {
  heap : gmap loc Z;
  stdout : list string;
  clock : nat → Z;
  ticks : nat
}.

Definition set_heap (h : gmap loc Z) (w : World) : World :=
  mkWorld h (stdout w) (clock w) (ticks w).

(** *** Computations: state, panics and fuel *)

Inductive outcome (A : Type) : Type :=
| Ok (a : A) (w : World)
| Panic
| OutOfFuel.
Arguments Ok {A} a w.
Arguments Panic {A}.
Arguments OutOfFuel {A}.

Definition M (A : Type) : Type := World → outcome A.

Definition ret {A} (a : A) : M A := λ w, Ok a w.

Definition bind {A B} (m : M A) (f : A → M B) : M B :=
  λ w, match m w with
       | Ok a w' => f a w'
       | Panic => Panic
       | OutOfFuel => OutOfFuel
       end.

Definition panic {A} : M A := λ _, Panic.

Declare Scope go_scope.
Delimit Scope go_scope with go.
Notation "'let*' x ':=' m 'in' k" := (bind m (λ x, k))
  (at level 10, x name, m at level 100, k at level 200) : go_scope.
Local Open Scope go_scope.

(** *** Pointers to [int64] variables *)

(** A [*Int] is [nil] or the address of a variable. *)
Definition ptr := option loc.

(** [var x Int = v], for a variable [x] whose address is taken: a fresh
    cell is allocated and its address returned. *)
Definition new_var (v : Z) : M ptr :=
  λ w, let l := fresh (dom (heap w)) in
       Ok (Some l) (set_heap (<[l := v]> (heap w)) w).

(** [*p]; dereferencing [nil] panics. *)
Definition load (p : ptr) : M Z :=
  λ w, match p with
       | None => Panic
       | Some l => match heap w !! l with
                   | Some v => Ok v w
                   | None => Panic
                   end
       end.

(** [*p = v] *)
Definition store (p : ptr) (v : Z) : M unit :=
  λ w, match p with
       | None => Panic
       | Some l => match heap w !! l with
                   | Some _ => Ok tt (set_heap (<[l := v]> (heap w)) w)
                   | None => Panic
                   end
       end.

(** *** The [for] statement

    [for i := 0; i < n; i++ { body }], where the body does not mention
    [i] and threads the local variables [s] it assigns.  [i++] is an
    [int] addition and wraps like any other.  [for_fuel] executes at most
    [fuel] tests of the condition. *)

Fixpoint for_fuel {S : Type} (fuel : nat) (i n : Z)
    (body : S → M S) (s : S) : M S :=
  match fuel with
  | O => λ _, OutOfFuel
  | Datatypes.S fuel' =>
      if i <? n
      then let* s' := body s in for_fuel fuel' (wrap64 (i + 1)) n body s'
      else ret s
  end.

(** The loop tests its condition [max n 0 + 1] times ([for_loop_iter]
    shows that this fuel is never exhausted when [n] is an [int]). *)
Definition for_loop {S : Type} (n : Z) (body : S → M S) (s : S) : M S :=
  for_fuel (Datatypes.S (Z.to_nat n)) 0 n body s.

(** *** [time] and [fmt] *)

(** A [time.Time] and a [time.Duration], both in nanoseconds. *)
Definition Time := Z.
Definition Duration := Z.

Definition time_Now : M Time :=
  λ w, Ok (clock w (ticks w))
          (mkWorld (heap w) (stdout w) (clock w) (Datatypes.S (ticks w))).

(** [t.Sub(u)]; a [Duration] is an [int64], and [Sub] returns the largest
    or the smallest one when the difference does not fit. *)
Definition Time_Sub (t u : Time) : Duration :=
  Z.max min_int64 (Z.min max_int64 (t - u)).

(** [fmt.Printf] after formatting: the string is appended to stdout. *)
Definition fmt_Printf (s : string) : M unit :=
  λ w, Ok tt (mkWorld (heap w) (stdout w ++ [s]) (clock w) (ticks w)).

(** The verb [%d] applied to an [int]. *)
Definition format_d (n : Z) : string := pretty n.

Definition newline : string := String "010"%char EmptyString.

(** [profile.Start(profile.CPUProfile)] and the deferred [Stop] belong to
    github.com/pkg/profile: they write a profile file and log to
    stderr, and touch neither the heap of the program nor stdout. *)
Definition profile_Start : M unit := ret tt.
Definition profile_Stop : M unit := ret tt.

(** *** Specification devices *)

(** [n] runs of [body] in sequence. *)
Fixpoint iterM {S : Type} (n : nat) (body : S → M S) (s : S) : M S :=
  match n with
  | O => ret s
  | Datatypes.S n' => let* s' := body s in iterM n' body s'
  end.

(** [body] instrumented with a count of its executions. *)
Definition counting {S : Type} (body : S → M S) (cs : Z * S) : M (Z * S) :=
  let* s' := body (snd cs) in ret (fst cs + 1, s').

(** Two runs end alike: both return, in the same world and with results
    related by [R], or both panic, or both exhaust their fuel. *)
Inductive outcome_rel {A B : Type} (R : A → B → Prop)
  : outcome A → outcome B → Prop :=
| rel_Ok a b w : R a b → outcome_rel R (Ok a w) (Ok b w)
| rel_Panic : outcome_rel R Panic Panic
| rel_OutOfFuel : outcome_rel R OutOfFuel OutOfFuel.

(** A world to run examples in: nothing allocated, nothing printed, and a
    clock that advances by one second per reading. *)
Definition world0 : World :=
  mkWorld ∅ [] (λ n, 1000000000 * Z.of_nat n) 0.

(** The same world with one variable, at address [1], holding [v]. *)
Definition world_with (v : Z) : World :=
  set_heap (<[1%positive := v]> ∅) world0.

(** A stand-in for [Duration.String] in examples: the nanosecond count. *)
Definition Duration_ns (d : Duration) : string := pretty d +:+ "ns".

End Go.

Import Go.
Local Open Scope go_scope.

(** ** Variant A: value receiver ([concrete_vs_interface.go]) *)

Module ValueRecv.

(** [type Int int64] *)
Definition Int := Z.

(** [func (i Int) Sum(i2 Int) Int { return i + i2 }] *)
Definition Sum (i i2 : Int) : Int := wrap64 (i + i2).

(** [type Summable interface { Sum(i Int) Int }].  An interface value is
    [nil] or carries a value of an implementing type; [Int] is the only
    type of the program with this method set. *)
Inductive Summable : Type :=
| Summable_nil
| Summable_Int (v : Int).

(** A call through the interface dispatches on the dynamic type. *)
Definition Summable_Sum (s : Summable) (i : Int) : M Int :=
  match s with
  | Summable_nil => panic
  | Summable_Int v => ret (Sum v i)
  end.

(** [const nbOps int = 1e8] *)
Definition nbOps : Z := 100000000.

(** [iConcrete = iConcrete.Sum(Int(k))] *)
Definition concrete_body (k : Int) (iConcrete : Int) : M Int :=
  ret (Sum iConcrete k).

(** [iInterface = iInterface.Sum(Int(k))]: the [Int] result is converted
    to a [Summable] by the assignment. *)
Definition interface_body (k : Int) (iInterface : Summable) : M Summable :=
  let* r := Summable_Sum iInterface k in ret (Summable_Int r).

(** The two loops of [main], with the bound and the increment as
    parameters. *)
Definition concrete_loop (n : Z) (k : Int) (iConcrete : Int) : M Int :=
  for_loop n (concrete_body k) iConcrete.

Definition interface_loop (n : Z) (k : Int) (iInterface : Summable)
  : M Summable :=
  for_loop n (interface_body k) iInterface.

Section Main.
(** [Duration.String], which the verb [%v] calls, is Go's. *)
Variable Duration_String : Duration → string.

(** Lines 31 to 37 of [main]. *)
Definition main_concrete : M Int :=
  let iConcrete : Int := 0 in
  let* start := time_Now in
  let* iConcrete := concrete_loop nbOps 10 iConcrete in
  let* now := time_Now in
  let* _ := fmt_Printf ("[concrete]  computed " +:+ format_d nbOps
              +:+ " sums in " +:+ Duration_String (Time_Sub now start)
              +:+ newline) in
  ret iConcrete.

(** Lines 39 to 45 of [main]. *)
Definition main_interface : M Summable :=
  let iInterface : Summable := Summable_Int 0 in
  let* start := time_Now in
  let* iInterface := interface_loop nbOps 10 iInterface in
  let* now := time_Now in
  let* _ := fmt_Printf ("[interface] computed " +:+ format_d nbOps
              +:+ " sums in " +:+ Duration_String (Time_Sub now start)
              +:+ newline) in
  ret iInterface.

(** [main] returns nothing in Go; the model returns the final values of
    its locals [iConcrete] and [iInterface] so that they can be
    observed. *)
Definition main : M (Int * Summable) :=
  let* _ := profile_Start in
  let* iConcrete := main_concrete in
  let* iInterface := main_interface in
  let* _ := profile_Stop in
  ret (iConcrete, iInterface).
End Main.

(** The number read through an interface handle. *)
Definition Summable_value (s : Summable) : option Int :=
  match s with
  | Summable_nil => None
  | Summable_Int v => Some v
  end.

End ValueRecv.

(** ** Variant B: pointer receiver returning the pointer
    ([concrete_vs_interface_pointers.go]) *)

Module PtrRecv.

Definition Int := Z.

(** [func (i *Int) Sum(i2 Int) *Int { *i += i2; return i }] *)
Definition Sum (i : ptr) (i2 : Int) : M ptr :=
  let* v := load i in
  let* _ := store i (wrap64 (v + i2)) in
  ret i.

(** [type Summable interface { Sum(i Int) *Int }]; [*Int] is the only
    implementing type. *)
Inductive Summable : Type :=
| Summable_nil
| Summable_PtrInt (p : ptr).

Definition Summable_Sum (s : Summable) (i : Int) : M ptr :=
  match s with
  | Summable_nil => panic
  | Summable_PtrInt p => Sum p i
  end.

Definition nbOps : Z := 100000000.

(** [iConcreteP = iConcreteP.Sum(Int(k))] *)
Definition concrete_body (k : Int) (iConcreteP : ptr) : M ptr :=
  Sum iConcreteP k.

(** [iInterfaceP = iInterfaceP.Sum(Int(k))] *)
Definition interface_body (k : Int) (iInterfaceP : Summable) : M Summable :=
  let* r := Summable_Sum iInterfaceP k in ret (Summable_PtrInt r).

Definition concrete_loop (n : Z) (k : Int) (iConcreteP : ptr) : M ptr :=
  for_loop n (concrete_body k) iConcreteP.

Definition interface_loop (n : Z) (k : Int) (iInterfaceP : Summable)
  : M Summable :=
  for_loop n (interface_body k) iInterfaceP.

Section Main.
Variable Duration_String : Duration → string.

(** Lines 32 to 38 of [main]; [zero] is [&zero]. *)
Definition main_concrete (zero : ptr) : M ptr :=
  let iConcreteP : ptr := zero in
  let* start := time_Now in
  let* iConcreteP := concrete_loop nbOps 10 iConcreteP in
  let* now := time_Now in
  let* _ := fmt_Printf ("[concrete]  computed " +:+ format_d nbOps
              +:+ " sums in " +:+ Duration_String (Time_Sub now start)
              +:+ newline) in
  ret iConcreteP.

(** Lines 40 to 46 of [main]. *)
Definition main_interface (zero : ptr) : M Summable :=
  let iInterfaceP : Summable := Summable_PtrInt zero in
  let* start := time_Now in
  let* iInterfaceP := interface_loop nbOps 10 iInterfaceP in
  let* now := time_Now in
  let* _ := fmt_Printf ("[interface] computed " +:+ format_d nbOps
              +:+ " sums in " +:+ Duration_String (Time_Sub now start)
              +:+ newline) in
  ret iInterfaceP.

(** The model returns [&zero] and the final values of the two
    handles. *)
Definition main : M (ptr * ptr * Summable) :=
  let* _ := profile_Start in
  let* zero := new_var 0 in
  let* iConcreteP := main_concrete zero in
  let* iInterfaceP := main_interface zero in
  let* _ := profile_Stop in
  ret (zero, iConcreteP, iInterfaceP).
End Main.

(** The pointer held by an interface handle. *)
Definition Summable_ptr (s : Summable) : ptr :=
  match s with
  | Summable_nil => None
  | Summable_PtrInt p => p
  end.

End PtrRecv.

(** ** Variant C: pointer receiver, no result
    ([concrete_vs_interface_pointers_inplace.go]) *)

Module InPlace.

Definition Int := Z.

(** [func (i *Int) Sum(i2 Int) { *i += i2 }] *)
Definition Sum (i : ptr) (i2 : Int) : M unit :=
  let* v := load i in
  store i (wrap64 (v + i2)).

(** [type Summable interface { Sum(i Int) }] *)
Inductive Summable : Type :=
| Summable_nil
| Summable_PtrInt (p : ptr).

Definition Summable_Sum (s : Summable) (i : Int) : M unit :=
  match s with
  | Summable_nil => panic
  | Summable_PtrInt p => Sum p i
  end.

Definition nbOps : Z := 100000000.

(** [iConcrete.Sum(Int(k))]: the handle is not assigned. *)
Definition concrete_body (k : Int) (iConcrete : ptr) : M ptr :=
  let* _ := Sum iConcrete k in ret iConcrete.

(** [iInterface.Sum(Int(k))] *)
Definition interface_body (k : Int) (iInterface : Summable) : M Summable :=
  let* _ := Summable_Sum iInterface k in ret iInterface.

Definition concrete_loop (n : Z) (k : Int) (iConcrete : ptr) : M ptr :=
  for_loop n (concrete_body k) iConcrete.

Definition interface_loop (n : Z) (k : Int) (iInterface : Summable)
  : M Summable :=
  for_loop n (interface_body k) iInterface.

Section Main.
Variable Duration_String : Duration → string.

(** Lines 32 to 38 of [main]. *)
Definition main_concrete (zero : ptr) : M ptr :=
  let iConcrete : ptr := zero in
  let* start := time_Now in
  let* iConcrete := concrete_loop nbOps 10 iConcrete in
  let* now := time_Now in
  let* _ := fmt_Printf ("[concrete]  computed " +:+ format_d nbOps
              +:+ " sums in " +:+ Duration_String (Time_Sub now start)
              +:+ newline) in
  ret iConcrete.

(** Lines 40 to 46 of [main]. *)
Definition main_interface (zero : ptr) : M Summable :=
  let iInterface : Summable := Summable_PtrInt zero in
  let* start := time_Now in
  let* iInterface := interface_loop nbOps 10 iInterface in
  let* now := time_Now in
  let* _ := fmt_Printf ("[interface] computed " +:+ format_d nbOps
              +:+ " sums in " +:+ Duration_String (Time_Sub now start)
              +:+ newline) in
  ret iInterface.

Definition main : M (ptr * ptr * Summable) :=
  let* _ := profile_Start in
  let* zero := new_var 0 in
  let* iConcrete := main_concrete zero in
  let* iInterface := main_interface zero in
  let* _ := profile_Stop in
  ret (zero, iConcrete, iInterface).
End Main.

Definition Summable_ptr (s : Summable) : ptr :=
  match s with
  | Summable_nil => None
  | Summable_PtrInt p => p
  end.

End InPlace.

(** ** The lines a run is expected to print

    [t0] and [t1] are the clock readings before and after the loop. *)

Definition concrete_line (Duration_String : Duration → string)
    (t0 t1 : Time) : string :=
  "[concrete]  computed 100000000 sums in "
  +:+ Duration_String (Time_Sub t1 t0) +:+ newline.

Definition interface_line (Duration_String : Duration → string)
    (t0 t1 : Time) : string :=
  "[interface] computed 100000000 sums in "
  +:+ Duration_String (Time_Sub t1 t0) +:+ newline.


(** * Properties *)

(** ** The runtime *)

Section Runtime.

Lemma wrap64_id (z : Z) : in_int64 z → wrap64 z = z.
Proof.
  unfold in_int64, min_int64, max_int64, wrap64. intros Hz.
  rewrite Z.mod_small; lia.
Qed.

Lemma wrap64_range (z : Z) : in_int64 (wrap64 z).
Proof.
  unfold in_int64, min_int64, max_int64, wrap64.
  pose proof (Z.mod_pos_bound (z + 9223372036854775808) 18446744073709551616).
  lia.
Qed.

(** Wrapping an intermediate sum does not change the wrapped total. *)
Lemma wrap64_add_l (a b : Z) : wrap64 (wrap64 a + b) = wrap64 (a + b).
Proof.
  unfold wrap64. f_equal.
  replace ((a + 9223372036854775808) `mod` 18446744073709551616
           - 9223372036854775808 + b + 9223372036854775808)
    with ((a + 9223372036854775808) `mod` 18446744073709551616 + b) by lia.
  rewrite Zplus_mod_idemp_l. f_equal. lia.
Qed.

Lemma set_heap_id (w : World) (l : loc) (v : Z) :
  heap w !! l = Some v → set_heap (<[l := v]> (heap w)) w = w.
Proof.
  intros H. destruct w as [h o c t]. unfold set_heap. simpl in *.
  by rewrite insert_id.
Qed.

Lemma set_heap_twice (w : World) (l : loc) (u v : Z) :
  set_heap (<[l := v]> (heap (set_heap (<[l := u]> (heap w)) w)))
           (set_heap (<[l := u]> (heap w)) w)
  = set_heap (<[l := v]> (heap w)) w.
Proof. unfold set_heap. simpl. by rewrite insert_insert_eq. Qed.

Lemma format_d_nbOps : format_d 100000000 = "100000000".
Proof. vm_compute. reflexivity. Qed.

Context {S : Type}.
Implicit Types (body : S → M S) (s : S) (w : World).

(** With an [int] bound the counter never wraps, and the statement runs
    its body once per value of [i] below the bound. *)
Lemma for_fuel_iter body (fuel : nat) :
  ∀ (i n : Z) s w,
    n ≤ max_int64 → min_int64 ≤ i →
    (Z.to_nat (n - i) < fuel)%nat →
    for_fuel fuel i n body s w = iterM (Z.to_nat (n - i)) body s w.
Proof.
  induction fuel as [|fuel IH]; intros i n s w Hn Hi Hfuel; [lia|].
  cbn [for_fuel]. destruct (Z.ltb_spec i n) as [Hlt|Hge].
  - replace (Z.to_nat (n - i)) with (Datatypes.S (Z.to_nat (n - (i + 1))))
      in * by lia.
    cbn [iterM]. unfold bind. destruct (body s w) as [s' w'| |]; try done.
    rewrite wrap64_id by (unfold in_int64, max_int64 in *; lia).
    apply IH; unfold min_int64 in *; lia.
  - replace (Z.to_nat (n - i)) with O by lia. done.
Qed.

(** The fuel [for_loop] supplies always suffices: the loop is total. *)
Lemma for_loop_iter body (n : Z) s w :
  n ≤ max_int64 → for_loop n body s w = iterM (Z.to_nat n) body s w.
Proof.
  intros Hn. unfold for_loop.
  rewrite for_fuel_iter; rewrite ?Z.sub_0_r; unfold min_int64; try lia.
  done.
Qed.

Lemma iterM_add body (a b : nat) s w :
  iterM (a + b) body s w = bind (iterM a body s) (iterM b body) w.
Proof.
  revert s w. induction a as [|a IH]; intros s w; [done|].
  cbn [Nat.add iterM]. unfold bind.
  destruct (body s w) as [s' w'| |]; [apply IH | done | done].
Qed.

(** The state after [j] passes of a longer loop is the final state of the
    loop with bound [j]. *)
Lemma for_loop_prefix body (j n : Z) s w :
  0 ≤ j ≤ n → n ≤ max_int64 →
  for_loop n body s w
  = bind (for_loop j body s) (iterM (Z.to_nat (n - j)) body) w.
Proof.
  intros Hj Hn. rewrite for_loop_iter by done.
  replace (Z.to_nat n) with (Z.to_nat j + Z.to_nat (n - j))%nat by lia.
  rewrite iterM_add. unfold bind. by rewrite for_loop_iter by lia.
Qed.

(** The instrumented body counts one execution per pass and does not
    disturb the loop. *)
Lemma iterM_counting body (n : nat) :
  ∀ (c : Z) s w,
    iterM n (counting body) (c, s) w
    = match iterM n body s w with
      | Ok s' w' => Ok (c + Z.of_nat n, s') w'
      | Panic => Panic
      | OutOfFuel => OutOfFuel
      end.
Proof.
  induction n as [|n IH]; intros c s w.
  - cbn. unfold ret. do 2 f_equal. lia.
  - cbn [iterM]. unfold counting at 1. unfold bind, ret. cbn [fst snd].
    destruct (body s w) as [s' w'| |]; try done.
    rewrite IH. destruct (iterM n body s' w'); try done.
    do 2 f_equal. lia.
Qed.

(** Loops whose bodies simulate each other simulate each other, whatever
    the bound. *)
Lemma for_fuel_sim {T : Type} (R : S → T → Prop)
    body (body' : T → M T) (fuel : nat) :
  (∀ s (t : T) w, R s t → outcome_rel R (body s w) (body' t w)) →
  ∀ (i n : Z) s (t : T) w,
    R s t →
    outcome_rel R (for_fuel fuel i n body s w) (for_fuel fuel i n body' t w).
Proof.
  intros Hbody. induction fuel as [|fuel IH]; intros i n s t w HR.
  - constructor.
  - cbn [for_fuel]. destruct (i <? n); [|by constructor].
    unfold bind. destruct (Hbody s t w HR); try constructor. by apply IH.
Qed.

End Runtime.

Lemma for_loop_counting {S : Type} (body : S → M S) (n c : Z)
    (s : S) (w : World) :
  n ≤ max_int64 →
  for_loop n (counting body) (c, s) w
  = match for_loop n body s w with
    | Ok s' w' => Ok (c + Z.max 0 n, s') w'
    | Panic => Panic
    | OutOfFuel => OutOfFuel
    end.
Proof.
  intros Hn. rewrite (for_loop_iter (counting body)) by done.
  rewrite iterM_counting, (for_loop_iter body) by done.
  by replace (Z.of_nat (Z.to_nat n)) with (Z.max 0 n) by lia.
Qed.

(** ** Variant A *)

Module ValueRecvFacts.
Import ValueRecv.

(** Boxing relates a concrete counter to the interface value holding it. *)
Lemma vr_body_sim (k : Int) (v : Int) (s : Summable) (w : World) :
  s = Summable_Int v →
  outcome_rel (λ v s, s = Summable_Int v)
    (concrete_body k v w) (interface_body k s w).
Proof. intros ->. by constructor. Qed.

Lemma vr_iter_concrete (k : Int) (n : nat) :
  ∀ (v : Int) (w : World),
    in_int64 v →
    iterM n (concrete_body k) v w = Ok (wrap64 (v + Z.of_nat n * k)) w.
Proof.
  induction n as [|n IH]; intros v w Hv.
  - cbn [iterM]. unfold ret. f_equal.
    replace (v + Z.of_nat 0 * k) with v by lia. symmetry. by apply wrap64_id.
  - cbn [iterM]. unfold bind, concrete_body at 1, ret, Sum.
    rewrite IH by apply wrap64_range.
    rewrite wrap64_add_l. do 2 f_equal. lia.
Qed.

Lemma vr_iter_interface (k : Int) (n : nat) :
  ∀ (v : Int) (w : World),
    in_int64 v →
    iterM n (interface_body k) (Summable_Int v) w
    = Ok (Summable_Int (wrap64 (v + Z.of_nat n * k))) w.
Proof.
  induction n as [|n IH]; intros v w Hv.
  - cbn [iterM]. unfold ret. do 2 f_equal.
    replace (v + Z.of_nat 0 * k) with v by lia. symmetry. by apply wrap64_id.
  - cbn [iterM]. unfold interface_body at 1, Summable_Sum. unfold bind, ret, Sum.
    rewrite IH by apply wrap64_range.
    rewrite wrap64_add_l. do 3 f_equal. lia.
Qed.

(** The direct loop returns from any start value, in range or not. *)
Lemma vr_iter_concrete_total (k : Int) (n : nat) :
  ∀ (v : Int) (w : World), ∃ v', iterM n (concrete_body k) v w = Ok v' w.
Proof.
  induction n as [|n IH]; intros v w; [by exists v|].
  cbn [iterM]. unfold bind, concrete_body at 1, ret. apply IH.
Qed.

(** The polymorphic loop refines the direct one: it returns the boxed
    result of the direct loop, in the same world. *)
Lemma vr_loops_agree (n : Z) (k v : Int) (w : World) :
  n ≤ max_int64 →
  ∃ v', concrete_loop n k v w = Ok v' w
        ∧ interface_loop n k (Summable_Int v) w = Ok (Summable_Int v') w.
Proof.
  intros Hn.
  destruct (vr_iter_concrete_total k (Z.to_nat n) v w) as [v' Hv'].
  exists v'. unfold concrete_loop, interface_loop.
  pose proof (for_fuel_sim (λ v s, s = Summable_Int v)
                (concrete_body k) (interface_body k) (S (Z.to_nat n))
                (vr_body_sim k) 0 n v (Summable_Int v) w eq_refl) as Hsim.
  fold (for_loop n (concrete_body k) v w) in Hsim.
  fold (for_loop n (interface_body k) (Summable_Int v) w) in Hsim.
  rewrite for_loop_iter, Hv' in Hsim by done.
  rewrite for_loop_iter, Hv' by done.
  split; [done|]. by inversion Hsim; subst.
Qed.

(** The loops in closed form; a bound below zero runs no pass. *)
Lemma vr_concrete_loop (n : Z) (k v : Int) (w : World) :
  n ≤ max_int64 → in_int64 v →
  concrete_loop n k v w = Ok (wrap64 (v + Z.max 0 n * k)) w.
Proof.
  intros Hn Hv. unfold concrete_loop.
  rewrite for_loop_iter, vr_iter_concrete by done.
  do 3 f_equal. lia.
Qed.

Lemma vr_interface_loop (n : Z) (k v : Int) (w : World) :
  n ≤ max_int64 → in_int64 v →
  interface_loop n k (Summable_Int v) w
  = Ok (Summable_Int (wrap64 (v + Z.max 0 n * k))) w.
Proof.
  intros Hn Hv. unfold interface_loop.
  rewrite for_loop_iter, vr_iter_interface by done.
  do 4 f_equal. lia.
Qed.

(** Both loops with their bodies counted, in closed form. *)
Lemma vr_loops_counted (n k v : Z) (w : World) :
  n ≤ max_int64 → in_int64 v →
  for_loop n (counting (concrete_body k)) (0, v) w
  = Ok (Z.max 0 n, wrap64 (v + Z.max 0 n * k)) w
  ∧ for_loop n (counting (interface_body k)) (0, Summable_Int v) w
    = Ok (Z.max 0 n, Summable_Int (wrap64 (v + Z.max 0 n * k))) w.
Proof.
  intros Hn Hv. rewrite !for_loop_counting by done.
  pose proof (vr_concrete_loop n k v w Hn Hv) as H1.
  pose proof (vr_interface_loop n k v w Hn Hv) as H2.
  unfold concrete_loop, interface_loop in H1, H2. by rewrite H1, H2.
Qed.

Section Main.
Variable D : Duration → string.

Lemma vr_main_concrete (w : World) :
  main_concrete D w
  = Ok 1000000000
       (mkWorld (heap w)
          (stdout w
           ++ [concrete_line D (clock w (ticks w)) (clock w (S (ticks w)))])
          (clock w) (S (S (ticks w)))).
Proof.
  unfold main_concrete, bind, time_Now, fmt_Printf, ret.
  rewrite vr_concrete_loop by (unfold nbOps, in_int64, min_int64, max_int64; lia).
  cbn [heap stdout clock ticks]. unfold nbOps. rewrite format_d_nbOps.
  reflexivity.
Qed.

Lemma vr_main_interface (w : World) :
  main_interface D w
  = Ok (Summable_Int 1000000000)
       (mkWorld (heap w)
          (stdout w
           ++ [interface_line D (clock w (ticks w)) (clock w (S (ticks w)))])
          (clock w) (S (S (ticks w)))).
Proof.
  unfold main_interface, bind, time_Now, fmt_Printf, ret.
  rewrite vr_interface_loop by (unfold nbOps, in_int64, min_int64, max_int64; lia).
  cbn [heap stdout clock ticks]. unfold nbOps. rewrite format_d_nbOps.
  reflexivity.
Qed.

(** A complete run of variant A. *)
Lemma vr_main (w : World) :
  main D w
  = Ok (1000000000, Summable_Int 1000000000)
       (mkWorld (heap w)
          (stdout w
           ++ [concrete_line D (clock w (ticks w)) (clock w (1 + ticks w)%nat);
               interface_line D (clock w (2 + ticks w)%nat)
                                (clock w (3 + ticks w)%nat)])
          (clock w) (4 + ticks w)%nat).
Proof.
  unfold main, profile_Start, profile_Stop. unfold bind at 1 2 3 4.
  unfold ret at 1. rewrite vr_main_concrete, vr_main_interface.
  unfold ret. cbn [heap stdout clock ticks Nat.add].
  by rewrite <- app_assoc.
Qed.

End Main.

End ValueRecvFacts.

(** ** Variant B *)

Module PtrRecvFacts.
Import PtrRecv.

Lemma pr_Sum (l : loc) (k : Int) (v : Z) (w : World) :
  heap w !! l = Some v →
  Sum (Some l) k w
  = Ok (Some l) (set_heap (<[l := wrap64 (v + k)]> (heap w)) w).
Proof.
  intros H. unfold Sum, bind, load, store, ret.
  rewrite H. cbv beta iota. by rewrite H.
Qed.

(** [Sum] hands back the pointer it was called on, whenever it returns. *)
Lemma pr_Sum_returns_receiver (i r : ptr) (i2 : Int) (w w' : World) :
  Sum i i2 w = Ok r w' → r = i.
Proof.
  unfold Sum, bind, load, store, ret.
  destruct i as [l|]; [|done].
  destruct (heap w !! l) as [v|] eqn:E; [|done].
  cbv beta iota. rewrite E. by intros [= <- _].
Qed.

Lemma pr_body_sim (k : Int) (p : ptr) (s : Summable) (w : World) :
  s = Summable_PtrInt p →
  outcome_rel (λ p s, s = Summable_PtrInt p)
    (concrete_body k p w) (interface_body k s w).
Proof.
  intros ->. unfold interface_body, concrete_body, Summable_Sum, bind, ret.
  destruct (Sum p k w); by constructor.
Qed.

Lemma pr_iter_concrete (l : loc) (k : Int) (n : nat) :
  ∀ (v : Z) (w : World),
    heap w !! l = Some v → in_int64 v →
    iterM n (concrete_body k) (Some l) w
    = Ok (Some l) (set_heap (<[l := wrap64 (v + Z.of_nat n * k)]> (heap w)) w).
Proof.
  induction n as [|n IH]; intros v w Hl Hv.
  - cbn [iterM]. unfold ret. f_equal.
    replace (v + Z.of_nat 0 * k) with v by lia.
    rewrite wrap64_id by done. symmetry. by apply set_heap_id.
  - cbn [iterM]. unfold concrete_body at 1. unfold bind.
    rewrite (pr_Sum l k v w Hl).
    rewrite (IH (wrap64 (v + k)));
      [| apply lookup_insert_eq | apply wrap64_range].
    rewrite set_heap_twice, wrap64_add_l.
    by replace (v + Z.of_nat (S n) * k) with (v + k + Z.of_nat n * k) by lia.
Qed.

Lemma pr_iter_interface (l : loc) (k : Int) (n : nat) :
  ∀ (v : Z) (w : World),
    heap w !! l = Some v → in_int64 v →
    iterM n (interface_body k) (Summable_PtrInt (Some l)) w
    = Ok (Summable_PtrInt (Some l))
         (set_heap (<[l := wrap64 (v + Z.of_nat n * k)]> (heap w)) w).
Proof.
  induction n as [|n IH]; intros v w Hl Hv.
  - cbn [iterM]. unfold ret. f_equal.
    replace (v + Z.of_nat 0 * k) with v by lia.
    rewrite wrap64_id by done. symmetry. by apply set_heap_id.
  - cbn [iterM]. unfold interface_body at 1, Summable_Sum. unfold bind.
    rewrite (pr_Sum l k v w Hl). unfold ret.
    rewrite (IH (wrap64 (v + k)));
      [| apply lookup_insert_eq | apply wrap64_range].
    rewrite set_heap_twice, wrap64_add_l.
    by replace (v + Z.of_nat (S n) * k) with (v + k + Z.of_nat n * k) by lia.
Qed.

(** The direct loop returns whenever its handle points to a variable; it
    keeps the handle and writes to that variable only. *)
Lemma pr_iter_concrete_total (l : loc) (k : Int) (n : nat) :
  ∀ (v : Z) (w : World),
    heap w !! l = Some v →
    ∃ v', iterM n (concrete_body k) (Some l) w
          = Ok (Some l) (set_heap (<[l := v']> (heap w)) w).
Proof.
  induction n as [|n IH]; intros v w Hl.
  - exists v. cbn [iterM]. unfold ret. f_equal. symmetry.
    by apply set_heap_id.
  - cbn [iterM]. unfold concrete_body at 1. unfold bind.
    rewrite (pr_Sum l k v w Hl). unfold ret.
    destruct (IH (wrap64 (v + k))
                (set_heap (<[l := wrap64 (v + k)]> (heap w)) w)) as [v' Hv'];
      [apply lookup_insert_eq|].
    exists v'. by rewrite Hv', set_heap_twice.
Qed.

Lemma pr_loops_agree (l : loc) (n : Z) (k : Int) (v : Z) (w : World) :
  n ≤ max_int64 → heap w !! l = Some v →
  ∃ v', concrete_loop n k (Some l) w
        = Ok (Some l) (set_heap (<[l := v']> (heap w)) w)
        ∧ interface_loop n k (Summable_PtrInt (Some l)) w
          = Ok (Summable_PtrInt (Some l)) (set_heap (<[l := v']> (heap w)) w).
Proof.
  intros Hn Hl.
  destruct (pr_iter_concrete_total l k (Z.to_nat n) v w Hl) as [v' Hv'].
  exists v'. unfold concrete_loop, interface_loop.
  pose proof (for_fuel_sim (λ p s, s = Summable_PtrInt p)
                (concrete_body k) (interface_body k) (S (Z.to_nat n))
                (pr_body_sim k) 0 n (Some l) (Summable_PtrInt (Some l)) w
                eq_refl) as Hsim.
  fold (for_loop n (concrete_body k) (Some l) w) in Hsim.
  fold (for_loop n (interface_body k) (Summable_PtrInt (Some l)) w) in Hsim.
  rewrite for_loop_iter, Hv' in Hsim by done.
  rewrite for_loop_iter, Hv' by done.
  split; [done|]. by inversion Hsim; subst.
Qed.

Lemma pr_concrete_loop (l : loc) (n : Z) (k : Int) (v : Z) (w : World) :
  n ≤ max_int64 → heap w !! l = Some v → in_int64 v →
  concrete_loop n k (Some l) w
  = Ok (Some l) (set_heap (<[l := wrap64 (v + Z.max 0 n * k)]> (heap w)) w).
Proof.
  intros Hn Hl Hv. unfold concrete_loop.
  rewrite for_loop_iter by done. rewrite (pr_iter_concrete l k _ v) by done.
  by replace (Z.of_nat (Z.to_nat n)) with (Z.max 0 n) by lia.
Qed.

Lemma pr_interface_loop (l : loc) (n : Z) (k : Int) (v : Z) (w : World) :
  n ≤ max_int64 → heap w !! l = Some v → in_int64 v →
  interface_loop n k (Summable_PtrInt (Some l)) w
  = Ok (Summable_PtrInt (Some l))
       (set_heap (<[l := wrap64 (v + Z.max 0 n * k)]> (heap w)) w).
Proof.
  intros Hn Hl Hv. unfold interface_loop.
  rewrite for_loop_iter by done. rewrite (pr_iter_interface l k _ v) by done.
  by replace (Z.of_nat (Z.to_nat n)) with (Z.max 0 n) by lia.
Qed.

Lemma pr_loops_counted (l : loc) (n : Z) (k : Int) (v : Z) (w : World) :
  n ≤ max_int64 → heap w !! l = Some v → in_int64 v →
  for_loop n (counting (concrete_body k)) (0, Some l) w
  = Ok (Z.max 0 n, Some l)
       (set_heap (<[l := wrap64 (v + Z.max 0 n * k)]> (heap w)) w)
  ∧ for_loop n (counting (interface_body k)) (0, Summable_PtrInt (Some l)) w
    = Ok (Z.max 0 n, Summable_PtrInt (Some l))
         (set_heap (<[l := wrap64 (v + Z.max 0 n * k)]> (heap w)) w).
Proof.
  intros Hn Hl Hv. rewrite !for_loop_counting by done.
  pose proof (pr_concrete_loop l n k v w Hn Hl Hv) as H1.
  pose proof (pr_interface_loop l n k v w Hn Hl Hv) as H2.
  unfold concrete_loop, interface_loop in H1, H2. by rewrite H1, H2.
Qed.

Section Main.
Variable D : Duration → string.

(** The first timed section adds [10 * nbOps] to the variable behind its
    handle. *)
Lemma pr_main_concrete (l : loc) (v : Z) (w : World) :
  heap w !! l = Some v → in_int64 v → in_int64 (v + 1000000000) →
  main_concrete D (Some l) w
  = Ok (Some l)
       (mkWorld (<[l := v + 1000000000]> (heap w))
          (stdout w
           ++ [concrete_line D (clock w (ticks w)) (clock w (S (ticks w)))])
          (clock w) (S (S (ticks w)))).
Proof.
  intros Hl Hv Hv'.
  unfold main_concrete, bind, time_Now, fmt_Printf, ret.
  rewrite (pr_concrete_loop l nbOps 10 v)
    by (done || (unfold nbOps, max_int64; lia)).
  change (Z.max 0 nbOps * 10) with 1000000000. rewrite wrap64_id by done.
  unfold set_heap. cbn [heap stdout clock ticks].
  unfold nbOps. rewrite format_d_nbOps. reflexivity.
Qed.

(** So does the second, to the variable behind its own handle. *)
Lemma pr_main_interface (l : loc) (v : Z) (w : World) :
  heap w !! l = Some v → in_int64 v → in_int64 (v + 1000000000) →
  main_interface D (Some l) w
  = Ok (Summable_PtrInt (Some l))
       (mkWorld (<[l := v + 1000000000]> (heap w))
          (stdout w
           ++ [interface_line D (clock w (ticks w)) (clock w (S (ticks w)))])
          (clock w) (S (S (ticks w)))).
Proof.
  intros Hl Hv Hv'.
  unfold main_interface, bind, time_Now, fmt_Printf, ret.
  rewrite (pr_interface_loop l nbOps 10 v)
    by (done || (unfold nbOps, max_int64; lia)).
  change (Z.max 0 nbOps * 10) with 1000000000. rewrite wrap64_id by done.
  unfold set_heap. cbn [heap stdout clock ticks].
  unfold nbOps. rewrite format_d_nbOps. reflexivity.
Qed.

(** The run up to the first report: [zero] is declared and the direct loop
    has run on it. *)
Lemma pr_first_half (w : World) :
  let zero := fresh (dom (heap w)) in
  bind (new_var 0) (main_concrete D) w
  = Ok (Some zero)
       (mkWorld (<[zero := 1000000000]> (heap w))
          (stdout w
           ++ [concrete_line D (clock w (ticks w)) (clock w (S (ticks w)))])
          (clock w) (S (S (ticks w)))).
Proof.
  intros zero. unfold bind, new_var. fold zero.
  rewrite (pr_main_concrete zero 0);
    [| apply lookup_insert_eq | | ];
    [| unfold in_int64, min_int64, max_int64; lia ..].
  unfold set_heap. cbn [heap stdout clock ticks].
  by rewrite insert_insert_eq.
Qed.

(** A complete run of variant B: both handles end up holding the
    address of [zero], a cell that did not exist before the run. *)
Lemma pr_main (w : World) :
  let zero := fresh (dom (heap w)) in
  main D w
  = Ok (Some zero, Some zero, Summable_PtrInt (Some zero))
       (mkWorld (<[zero := 2000000000]> (heap w))
          (stdout w
           ++ [concrete_line D (clock w (ticks w)) (clock w (1 + ticks w)%nat);
               interface_line D (clock w (2 + ticks w)%nat)
                                (clock w (3 + ticks w)%nat)])
          (clock w) (4 + ticks w)%nat).
Proof.
  intros zero.
  unfold main, profile_Start, profile_Stop, new_var.
  unfold bind at 1 2 3 4 5. unfold ret at 1. fold zero.
  rewrite (pr_main_concrete zero 0);
    [| apply lookup_insert_eq | | ];
    [| unfold in_int64, min_int64, max_int64; lia ..].
  rewrite (pr_main_interface zero 1000000000);
    [| apply lookup_insert_eq | | ];
    [| unfold in_int64, min_int64, max_int64; lia ..].
  unfold ret, set_heap. cbn [heap stdout clock ticks Nat.add].
  rewrite !insert_insert_eq, <- app_assoc. reflexivity.
Qed.

End Main.

End PtrRecvFacts.

(** ** Variant C *)

Module InPlaceFacts.
Import InPlace.

Lemma ip_Sum (l : loc) (k : Int) (v : Z) (w : World) :
  heap w !! l = Some v →
  Sum (Some l) k w = Ok tt (set_heap (<[l := wrap64 (v + k)]> (heap w)) w).
Proof.
  intros H. unfold Sum, bind, load, store.
  rewrite H. cbv beta iota. by rewrite H.
Qed.

Lemma ip_body_sim (k : Int) (p : ptr) (s : Summable) (w : World) :
  s = Summable_PtrInt p →
  outcome_rel (λ p s, s = Summable_PtrInt p)
    (concrete_body k p w) (interface_body k s w).
Proof.
  intros ->. unfold interface_body, concrete_body, Summable_Sum, bind, ret.
  destruct (Sum p k w); by constructor.
Qed.

Lemma ip_iter_concrete (l : loc) (k : Int) (n : nat) :
  ∀ (v : Z) (w : World),
    heap w !! l = Some v → in_int64 v →
    iterM n (concrete_body k) (Some l) w
    = Ok (Some l) (set_heap (<[l := wrap64 (v + Z.of_nat n * k)]> (heap w)) w).
Proof.
  induction n as [|n IH]; intros v w Hl Hv.
  - cbn [iterM]. unfold ret. f_equal.
    replace (v + Z.of_nat 0 * k) with v by lia.
    rewrite wrap64_id by done. symmetry. by apply set_heap_id.
  - cbn [iterM]. unfold concrete_body at 1. unfold bind.
    rewrite (ip_Sum l k v w Hl). unfold ret.
    rewrite (IH (wrap64 (v + k)));
      [| apply lookup_insert_eq | apply wrap64_range].
    rewrite set_heap_twice, wrap64_add_l.
    by replace (v + Z.of_nat (S n) * k) with (v + k + Z.of_nat n * k) by lia.
Qed.

Lemma ip_iter_interface (l : loc) (k : Int) (n : nat) :
  ∀ (v : Z) (w : World),
    heap w !! l = Some v → in_int64 v →
    iterM n (interface_body k) (Summable_PtrInt (Some l)) w
    = Ok (Summable_PtrInt (Some l))
         (set_heap (<[l := wrap64 (v + Z.of_nat n * k)]> (heap w)) w).
Proof.
  induction n as [|n IH]; intros v w Hl Hv.
  - cbn [iterM]. unfold ret. f_equal.
    replace (v + Z.of_nat 0 * k) with v by lia.
    rewrite wrap64_id by done. symmetry. by apply set_heap_id.
  - cbn [iterM]. unfold interface_body at 1, Summable_Sum. unfold bind.
    rewrite (ip_Sum l k v w Hl). unfold ret.
    rewrite (IH (wrap64 (v + k)));
      [| apply lookup_insert_eq | apply wrap64_range].
    rewrite set_heap_twice, wrap64_add_l.
    by replace (v + Z.of_nat (S n) * k) with (v + k + Z.of_nat n * k) by lia.
Qed.

(** The direct loop returns whenever its handle points to a variable; it
    keeps the handle and writes to that variable only. *)
Lemma ip_iter_concrete_total (l : loc) (k : Int) (n : nat) :
  ∀ (v : Z) (w : World),
    heap w !! l = Some v →
    ∃ v', iterM n (concrete_body k) (Some l) w
          = Ok (Some l) (set_heap (<[l := v']> (heap w)) w).
Proof.
  induction n as [|n IH]; intros v w Hl.
  - exists v. cbn [iterM]. unfold ret. f_equal. symmetry.
    by apply set_heap_id.
  - cbn [iterM]. unfold concrete_body at 1. unfold bind.
    rewrite (ip_Sum l k v w Hl). unfold ret.
    destruct (IH (wrap64 (v + k))
                (set_heap (<[l := wrap64 (v + k)]> (heap w)) w)) as [v' Hv'];
      [apply lookup_insert_eq|].
    exists v'. by rewrite Hv', set_heap_twice.
Qed.

Lemma ip_loops_agree (l : loc) (n : Z) (k : Int) (v : Z) (w : World) :
  n ≤ max_int64 → heap w !! l = Some v →
  ∃ v', concrete_loop n k (Some l) w
        = Ok (Some l) (set_heap (<[l := v']> (heap w)) w)
        ∧ interface_loop n k (Summable_PtrInt (Some l)) w
          = Ok (Summable_PtrInt (Some l)) (set_heap (<[l := v']> (heap w)) w).
Proof.
  intros Hn Hl.
  destruct (ip_iter_concrete_total l k (Z.to_nat n) v w Hl) as [v' Hv'].
  exists v'. unfold concrete_loop, interface_loop.
  pose proof (for_fuel_sim (λ p s, s = Summable_PtrInt p)
                (concrete_body k) (interface_body k) (S (Z.to_nat n))
                (ip_body_sim k) 0 n (Some l) (Summable_PtrInt (Some l)) w
                eq_refl) as Hsim.
  fold (for_loop n (concrete_body k) (Some l) w) in Hsim.
  fold (for_loop n (interface_body k) (Summable_PtrInt (Some l)) w) in Hsim.
  rewrite for_loop_iter, Hv' in Hsim by done.
  rewrite for_loop_iter, Hv' by done.
  split; [done|]. by inversion Hsim; subst.
Qed.

Lemma ip_concrete_loop (l : loc) (n : Z) (k : Int) (v : Z) (w : World) :
  n ≤ max_int64 → heap w !! l = Some v → in_int64 v →
  concrete_loop n k (Some l) w
  = Ok (Some l) (set_heap (<[l := wrap64 (v + Z.max 0 n * k)]> (heap w)) w).
Proof.
  intros Hn Hl Hv. unfold concrete_loop.
  rewrite for_loop_iter by done. rewrite (ip_iter_concrete l k _ v) by done.
  by replace (Z.of_nat (Z.to_nat n)) with (Z.max 0 n) by lia.
Qed.

Lemma ip_interface_loop (l : loc) (n : Z) (k : Int) (v : Z) (w : World) :
  n ≤ max_int64 → heap w !! l = Some v → in_int64 v →
  interface_loop n k (Summable_PtrInt (Some l)) w
  = Ok (Summable_PtrInt (Some l))
       (set_heap (<[l := wrap64 (v + Z.max 0 n * k)]> (heap w)) w).
Proof.
  intros Hn Hl Hv. unfold interface_loop.
  rewrite for_loop_iter by done. rewrite (ip_iter_interface l k _ v) by done.
  by replace (Z.of_nat (Z.to_nat n)) with (Z.max 0 n) by lia.
Qed.

Lemma ip_loops_counted (l : loc) (n : Z) (k : Int) (v : Z) (w : World) :
  n ≤ max_int64 → heap w !! l = Some v → in_int64 v →
  for_loop n (counting (concrete_body k)) (0, Some l) w
  = Ok (Z.max 0 n, Some l)
       (set_heap (<[l := wrap64 (v + Z.max 0 n * k)]> (heap w)) w)
  ∧ for_loop n (counting (interface_body k)) (0, Summable_PtrInt (Some l)) w
    = Ok (Z.max 0 n, Summable_PtrInt (Some l))
         (set_heap (<[l := wrap64 (v + Z.max 0 n * k)]> (heap w)) w).
Proof.
  intros Hn Hl Hv. rewrite !for_loop_counting by done.
  pose proof (ip_concrete_loop l n k v w Hn Hl Hv) as H1.
  pose proof (ip_interface_loop l n k v w Hn Hl Hv) as H2.
  unfold concrete_loop, interface_loop in H1, H2. by rewrite H1, H2.
Qed.

Section Main.
Variable D : Duration → string.

(** The first timed section adds [10 * nbOps] to the variable behind its
    handle. *)
Lemma ip_main_concrete (l : loc) (v : Z) (w : World) :
  heap w !! l = Some v → in_int64 v → in_int64 (v + 1000000000) →
  main_concrete D (Some l) w
  = Ok (Some l)
       (mkWorld (<[l := v + 1000000000]> (heap w))
          (stdout w
           ++ [concrete_line D (clock w (ticks w)) (clock w (S (ticks w)))])
          (clock w) (S (S (ticks w)))).
Proof.
  intros Hl Hv Hv'.
  unfold main_concrete, bind, time_Now, fmt_Printf, ret.
  rewrite (ip_concrete_loop l nbOps 10 v)
    by (done || (unfold nbOps, max_int64; lia)).
  change (Z.max 0 nbOps * 10) with 1000000000. rewrite wrap64_id by done.
  unfold set_heap. cbn [heap stdout clock ticks].
  unfold nbOps. rewrite format_d_nbOps. reflexivity.
Qed.

(** So does the second, to the variable behind its own handle. *)
Lemma ip_main_interface (l : loc) (v : Z) (w : World) :
  heap w !! l = Some v → in_int64 v → in_int64 (v + 1000000000) →
  main_interface D (Some l) w
  = Ok (Summable_PtrInt (Some l))
       (mkWorld (<[l := v + 1000000000]> (heap w))
          (stdout w
           ++ [interface_line D (clock w (ticks w)) (clock w (S (ticks w)))])
          (clock w) (S (S (ticks w)))).
Proof.
  intros Hl Hv Hv'.
  unfold main_interface, bind, time_Now, fmt_Printf, ret.
  rewrite (ip_interface_loop l nbOps 10 v)
    by (done || (unfold nbOps, max_int64; lia)).
  change (Z.max 0 nbOps * 10) with 1000000000. rewrite wrap64_id by done.
  unfold set_heap. cbn [heap stdout clock ticks].
  unfold nbOps. rewrite format_d_nbOps. reflexivity.
Qed.

(** The run up to the first report: [zero] is declared and the direct loop
    has run on it. *)
Lemma ip_first_half (w : World) :
  let zero := fresh (dom (heap w)) in
  bind (new_var 0) (main_concrete D) w
  = Ok (Some zero)
       (mkWorld (<[zero := 1000000000]> (heap w))
          (stdout w
           ++ [concrete_line D (clock w (ticks w)) (clock w (S (ticks w)))])
          (clock w) (S (S (ticks w)))).
Proof.
  intros zero. unfold bind, new_var. fold zero.
  rewrite (ip_main_concrete zero 0);
    [| apply lookup_insert_eq | | ];
    [| unfold in_int64, min_int64, max_int64; lia ..].
  unfold set_heap. cbn [heap stdout clock ticks].
  by rewrite insert_insert_eq.
Qed.

(** A complete run of variant C: both handles end up holding the
    address of [zero], a cell that did not exist before the run. *)
Lemma ip_main (w : World) :
  let zero := fresh (dom (heap w)) in
  main D w
  = Ok (Some zero, Some zero, Summable_PtrInt (Some zero))
       (mkWorld (<[zero := 2000000000]> (heap w))
          (stdout w
           ++ [concrete_line D (clock w (ticks w)) (clock w (1 + ticks w)%nat);
               interface_line D (clock w (2 + ticks w)%nat)
                                (clock w (3 + ticks w)%nat)])
          (clock w) (4 + ticks w)%nat).
Proof.
  intros zero.
  unfold main, profile_Start, profile_Stop, new_var.
  unfold bind at 1 2 3 4 5. unfold ret at 1. fold zero.
  rewrite (ip_main_concrete zero 0);
    [| apply lookup_insert_eq | | ];
    [| unfold in_int64, min_int64, max_int64; lia ..].
  rewrite (ip_main_interface zero 1000000000);
    [| apply lookup_insert_eq | | ];
    [| unfold in_int64, min_int64, max_int64; lia ..].
  unfold ret, set_heap. cbn [heap stdout clock ticks Nat.add].
  rewrite !insert_insert_eq, <- app_assoc. reflexivity.
Qed.

End Main.

End InPlaceFacts.

(** ** Runs on small inputs, by evaluation *)

Example run_vr_concrete_3 :
  ValueRecv.concrete_loop 3 10 0 world0 = Ok 30 world0.
Proof. vm_compute. reflexivity. Qed.

Example run_vr_interface_3 :
  ValueRecv.interface_loop 3 10 (ValueRecv.Summable_Int 0) world0
  = Ok (ValueRecv.Summable_Int 30) world0.
Proof. vm_compute. reflexivity. Qed.

Example run_vr_wraps :
  ValueRecv.concrete_loop 2 4611686018427387904 0 world0
  = Ok (-9223372036854775808) world0.
Proof. vm_compute. reflexivity. Qed.

Example run_vr_negative_bound :
  ValueRecv.concrete_loop (-1) 10 0 world0 = Ok 0 world0.
Proof. vm_compute. reflexivity. Qed.

Example run_vr_nil_interface :
  ValueRecv.interface_loop 3 10 ValueRecv.Summable_nil world0 = Panic.
Proof. vm_compute. reflexivity. Qed.

Example run_pr_concrete_3 :
  PtrRecv.concrete_loop 3 10 (Some 1%positive) (world_with 0)
  = Ok (Some 1%positive) (world_with 30).
Proof. vm_compute. reflexivity. Qed.

Example run_pr_interface_3 :
  PtrRecv.interface_loop 3 10 (PtrRecv.Summable_PtrInt (Some 1%positive))
    (world_with 30)
  = Ok (PtrRecv.Summable_PtrInt (Some 1%positive)) (world_with 60).
Proof. vm_compute. reflexivity. Qed.

Example run_pr_nil_pointer :
  PtrRecv.concrete_loop 3 10 None world0 = Panic.
Proof. vm_compute. reflexivity. Qed.

Example run_ip_concrete_3 :
  InPlace.concrete_loop 3 10 (Some 1%positive) (world_with 0)
  = Ok (Some 1%positive) (world_with 30).
Proof. vm_compute. reflexivity. Qed.

Example run_ip_interface_3 :
  InPlace.interface_loop 3 10 (InPlace.Summable_PtrInt (Some 1%positive))
    (world_with 30)
  = Ok (InPlace.Summable_PtrInt (Some 1%positive)) (world_with 60).
Proof. vm_compute. reflexivity. Qed.

Example run_new_var :
  new_var 0 world0 = Ok (Some 1%positive) (world_with 0).
Proof. vm_compute. reflexivity. Qed.

Example run_short_of_fuel :
  for_fuel 2 0 5 (ValueRecv.concrete_body 10) 0 world0 = OutOfFuel.
Proof. vm_compute. reflexivity. Qed.

Example run_report_line :
  concrete_line Duration_ns 1000000000 3500000000
  = "[concrete]  computed 100000000 sums in 2500000000ns" +:+ newline.
Proof. vm_compute. reflexivity. Qed.

(** * The specified properties, C1 to C10 *)

Ltac int64_bounds :=
  unfold in_int64, min_int64, max_int64,
    ValueRecv.nbOps, PtrRecv.nbOps, InPlace.nbOps in *; lia.

(** C1: in each variant the polymorphic loop performs the same operation
    as the direct loop.  Started on the same counter value [v], in the same
    world, and run with the same bound [n] and increment [k], both loops
    return, and they leave the same counter value [v']: in variant A the
    interface handle holds [v'] boxed, in variants B and C both loops leave
    the world in which the variable behind the handle holds [v']. *)
Theorem C1_polymorphic_loop_refines_direct_loop
    (n k v : Z) (l : loc) (w : World) :
  n ≤ max_int64 →
  heap w !! l = Some v →
  (∃ v',
      ValueRecv.concrete_loop n k v w = Ok v' w
      ∧ ValueRecv.interface_loop n k (ValueRecv.Summable_Int v) w
        = Ok (ValueRecv.Summable_Int v') w)
  ∧ (∃ v',
      PtrRecv.concrete_loop n k (Some l) w
      = Ok (Some l) (set_heap (<[l := v']> (heap w)) w)
      ∧ PtrRecv.interface_loop n k (PtrRecv.Summable_PtrInt (Some l)) w
        = Ok (PtrRecv.Summable_PtrInt (Some l))
             (set_heap (<[l := v']> (heap w)) w))
  ∧ (∃ v',
      InPlace.concrete_loop n k (Some l) w
      = Ok (Some l) (set_heap (<[l := v']> (heap w)) w)
      ∧ InPlace.interface_loop n k (InPlace.Summable_PtrInt (Some l)) w
        = Ok (InPlace.Summable_PtrInt (Some l))
             (set_heap (<[l := v']> (heap w)) w)).
Proof.
  intros Hn Hl. split; [|split].
  - by apply ValueRecvFacts.vr_loops_agree.
  - by apply (PtrRecvFacts.pr_loops_agree l n k v).
  - by apply (InPlaceFacts.ip_loops_agree l n k v).
Qed.

Lemma C1_witness :
  3 ≤ max_int64
  ∧ heap (world_with 7) !! 1%positive = Some 7
  ∧ (∃ v',
      ValueRecv.concrete_loop 3 10 7 (world_with 7) = Ok v' (world_with 7)
      ∧ ValueRecv.interface_loop 3 10 (ValueRecv.Summable_Int 7) (world_with 7)
        = Ok (ValueRecv.Summable_Int v') (world_with 7))
  ∧ (∃ v',
      PtrRecv.concrete_loop 3 10 (Some 1%positive) (world_with 7)
      = Ok (Some 1%positive)
           (set_heap (<[1%positive := v']> (heap (world_with 7)))
              (world_with 7))
      ∧ PtrRecv.interface_loop 3 10
          (PtrRecv.Summable_PtrInt (Some 1%positive)) (world_with 7)
        = Ok (PtrRecv.Summable_PtrInt (Some 1%positive))
             (set_heap (<[1%positive := v']> (heap (world_with 7)))
                (world_with 7)))
  ∧ (∃ v',
      InPlace.concrete_loop 3 10 (Some 1%positive) (world_with 7)
      = Ok (Some 1%positive)
           (set_heap (<[1%positive := v']> (heap (world_with 7)))
              (world_with 7))
      ∧ InPlace.interface_loop 3 10
          (InPlace.Summable_PtrInt (Some 1%positive)) (world_with 7)
        = Ok (InPlace.Summable_PtrInt (Some 1%positive))
             (set_heap (<[1%positive := v']> (heap (world_with 7)))
                (world_with 7))).
Proof.
  split; [unfold max_int64; lia|]. split; [reflexivity|].
  apply (C1_polymorphic_loop_refines_direct_loop 3 10 7 1%positive
           (world_with 7)); [unfold max_int64; lia | reflexivity].
Defined.

(** C8: with the bound [0] the direct loop and the polymorphic loop of
    every variant run their body not even once (the instrumented body
    counts [0] executions) and return the handle they were started with in
    an unchanged world, whatever the handle and the increment are. *)
Theorem C8_zero_iterations (k : Z) (w : World) :
  (∀ v s,
      ValueRecv.concrete_loop 0 k v w = Ok v w
      ∧ ValueRecv.interface_loop 0 k s w = Ok s w
      ∧ for_loop 0 (counting (ValueRecv.concrete_body k)) (0, v) w
        = Ok (0, v) w
      ∧ for_loop 0 (counting (ValueRecv.interface_body k)) (0, s) w
        = Ok (0, s) w)
  ∧ (∀ p s,
      PtrRecv.concrete_loop 0 k p w = Ok p w
      ∧ PtrRecv.interface_loop 0 k s w = Ok s w
      ∧ for_loop 0 (counting (PtrRecv.concrete_body k)) (0, p) w
        = Ok (0, p) w
      ∧ for_loop 0 (counting (PtrRecv.interface_body k)) (0, s) w
        = Ok (0, s) w)
  ∧ (∀ p s,
      InPlace.concrete_loop 0 k p w = Ok p w
      ∧ InPlace.interface_loop 0 k s w = Ok s w
      ∧ for_loop 0 (counting (InPlace.concrete_body k)) (0, p) w
        = Ok (0, p) w
      ∧ for_loop 0 (counting (InPlace.interface_body k)) (0, s) w
        = Ok (0, s) w).
Proof. repeat split. Qed.

(** C2: in every variant each timed loop runs its body, which applies the
    increment [10], exactly [10^8] times, and a counter holding [v] before
    the loop holds [v + 10 * 10^8] after it, provided that sum is an
    [int64]; a loop started on a zero counter ends on [10^9].  In variants
    B and C the counter is the variable [l] behind the handle. *)
Theorem C2_each_loop_adds_ten_1e8_times (v : Z) (l : loc) (w : World) :
  in_int64 v →
  in_int64 (v + 10 * 100000000) →
  heap w !! l = Some v →
  (ValueRecv.concrete_loop ValueRecv.nbOps 10 v w
   = Ok (v + 10 * 100000000) w
   ∧ ValueRecv.interface_loop ValueRecv.nbOps 10 (ValueRecv.Summable_Int v) w
     = Ok (ValueRecv.Summable_Int (v + 10 * 100000000)) w
   ∧ for_loop ValueRecv.nbOps (counting (ValueRecv.concrete_body 10)) (0, v) w
     = Ok (100000000, v + 10 * 100000000) w
   ∧ for_loop ValueRecv.nbOps (counting (ValueRecv.interface_body 10))
       (0, ValueRecv.Summable_Int v) w
     = Ok (100000000, ValueRecv.Summable_Int (v + 10 * 100000000)) w)
  ∧ (PtrRecv.concrete_loop PtrRecv.nbOps 10 (Some l) w
     = Ok (Some l) (set_heap (<[l := v + 10 * 100000000]> (heap w)) w)
     ∧ PtrRecv.interface_loop PtrRecv.nbOps 10
         (PtrRecv.Summable_PtrInt (Some l)) w
       = Ok (PtrRecv.Summable_PtrInt (Some l))
            (set_heap (<[l := v + 10 * 100000000]> (heap w)) w)
     ∧ for_loop PtrRecv.nbOps (counting (PtrRecv.concrete_body 10))
         (0, Some l) w
       = Ok (100000000, Some l)
            (set_heap (<[l := v + 10 * 100000000]> (heap w)) w)
     ∧ for_loop PtrRecv.nbOps (counting (PtrRecv.interface_body 10))
         (0, PtrRecv.Summable_PtrInt (Some l)) w
       = Ok (100000000, PtrRecv.Summable_PtrInt (Some l))
            (set_heap (<[l := v + 10 * 100000000]> (heap w)) w))
  ∧ (InPlace.concrete_loop InPlace.nbOps 10 (Some l) w
     = Ok (Some l) (set_heap (<[l := v + 10 * 100000000]> (heap w)) w)
     ∧ InPlace.interface_loop InPlace.nbOps 10
         (InPlace.Summable_PtrInt (Some l)) w
       = Ok (InPlace.Summable_PtrInt (Some l))
            (set_heap (<[l := v + 10 * 100000000]> (heap w)) w)
     ∧ for_loop InPlace.nbOps (counting (InPlace.concrete_body 10))
         (0, Some l) w
       = Ok (100000000, Some l)
            (set_heap (<[l := v + 10 * 100000000]> (heap w)) w)
     ∧ for_loop InPlace.nbOps (counting (InPlace.interface_body 10))
         (0, InPlace.Summable_PtrInt (Some l)) w
       = Ok (100000000, InPlace.Summable_PtrInt (Some l))
            (set_heap (<[l := v + 10 * 100000000]> (heap w)) w))
  ∧ (ValueRecv.concrete_loop ValueRecv.nbOps 10 0 w = Ok 1000000000 w
     ∧ ValueRecv.interface_loop ValueRecv.nbOps 10 (ValueRecv.Summable_Int 0) w
       = Ok (ValueRecv.Summable_Int 1000000000) w
     ∧ PtrRecv.concrete_loop PtrRecv.nbOps 10 (Some l)
         (set_heap (<[l := 0]> (heap w)) w)
       = Ok (Some l) (set_heap (<[l := 1000000000]> (heap w)) w)
     ∧ PtrRecv.interface_loop PtrRecv.nbOps 10
         (PtrRecv.Summable_PtrInt (Some l)) (set_heap (<[l := 0]> (heap w)) w)
       = Ok (PtrRecv.Summable_PtrInt (Some l))
            (set_heap (<[l := 1000000000]> (heap w)) w)
     ∧ InPlace.concrete_loop InPlace.nbOps 10 (Some l)
         (set_heap (<[l := 0]> (heap w)) w)
       = Ok (Some l) (set_heap (<[l := 1000000000]> (heap w)) w)
     ∧ InPlace.interface_loop InPlace.nbOps 10
         (InPlace.Summable_PtrInt (Some l)) (set_heap (<[l := 0]> (heap w)) w)
       = Ok (InPlace.Summable_PtrInt (Some l))
            (set_heap (<[l := 1000000000]> (heap w)) w)).
Proof.
  intros Hv Hv' Hl.
  assert (Hw : ∀ n, n = 100000000 →
                    wrap64 (v + Z.max 0 n * 10) = v + 10 * 100000000).
  { intros n ->. change (Z.max 0 100000000 * 10) with (10 * 100000000).
    by apply wrap64_id. }
  assert (Hm : ∀ n, n = 100000000 → Z.max 0 n = 100000000)
    by (intros n ->; reflexivity).
  assert (HnA : ValueRecv.nbOps ≤ max_int64) by int64_bounds.
  assert (HnB : PtrRecv.nbOps ≤ max_int64) by int64_bounds.
  assert (HnC : InPlace.nbOps ≤ max_int64) by int64_bounds.
  split; [|split; [|split]].
  - rewrite ValueRecvFacts.vr_concrete_loop,
      ValueRecvFacts.vr_interface_loop by done.
    destruct (ValueRecvFacts.vr_loops_counted ValueRecv.nbOps 10 v w HnA Hv)
      as [-> ->].
    by rewrite (Hw ValueRecv.nbOps eq_refl), (Hm ValueRecv.nbOps eq_refl).
  - rewrite (PtrRecvFacts.pr_concrete_loop l _ _ v),
      (PtrRecvFacts.pr_interface_loop l _ _ v) by done.
    destruct (PtrRecvFacts.pr_loops_counted l PtrRecv.nbOps 10 v w HnB Hl Hv)
      as [-> ->].
    by rewrite (Hw PtrRecv.nbOps eq_refl), (Hm PtrRecv.nbOps eq_refl).
  - rewrite (InPlaceFacts.ip_concrete_loop l _ _ v),
      (InPlaceFacts.ip_interface_loop l _ _ v) by done.
    destruct (InPlaceFacts.ip_loops_counted l InPlace.nbOps 10 v w HnC Hl Hv)
      as [-> ->].
    by rewrite (Hw InPlace.nbOps eq_refl), (Hm InPlace.nbOps eq_refl).
  - assert (H0 : in_int64 0) by int64_bounds.
    assert (Hz : ∀ n, n = 100000000 →
                      wrap64 (0 + Z.max 0 n * 10) = 1000000000)
      by (intros n ->; reflexivity).
    assert (Hl0 : heap (set_heap (<[l := 0]> (heap w)) w) !! l = Some 0)
      by apply lookup_insert_eq.
    rewrite ValueRecvFacts.vr_concrete_loop,
      ValueRecvFacts.vr_interface_loop by done.
    rewrite (PtrRecvFacts.pr_concrete_loop l _ _ 0),
      (PtrRecvFacts.pr_interface_loop l _ _ 0) by done.
    rewrite (InPlaceFacts.ip_concrete_loop l _ _ 0),
      (InPlaceFacts.ip_interface_loop l _ _ 0) by done.
    rewrite (Hz ValueRecv.nbOps eq_refl), (Hz PtrRecv.nbOps eq_refl),
      (Hz InPlace.nbOps eq_refl).
    rewrite set_heap_twice. done.
Qed.

Lemma C2_witness :
  ValueRecv.concrete_loop ValueRecv.nbOps 10 0 (world_with 0)
  = Ok (0 + 10 * 100000000) (world_with 0)
  ∧ PtrRecv.interface_loop PtrRecv.nbOps 10
      (PtrRecv.Summable_PtrInt (Some 1%positive)) (world_with 0)
    = Ok (PtrRecv.Summable_PtrInt (Some 1%positive))
         (set_heap (<[1%positive := 0 + 10 * 100000000]>
                      (heap (world_with 0))) (world_with 0))
  ∧ for_loop InPlace.nbOps (counting (InPlace.concrete_body 10))
      (0, Some 1%positive) (world_with 0)
    = Ok (100000000, Some 1%positive)
         (set_heap (<[1%positive := 0 + 10 * 100000000]>
                      (heap (world_with 0))) (world_with 0)).
Proof.
  assert (H0 : in_int64 0) by (unfold in_int64, min_int64, max_int64; lia).
  assert (H1 : in_int64 (0 + 10 * 100000000))
    by (unfold in_int64, min_int64, max_int64; lia).
  assert (H2 : heap (world_with 0) !! 1%positive = Some 0) by reflexivity.
  destruct (C2_each_loop_adds_ten_1e8_times 0 1%positive (world_with 0)
              H0 H1 H2) as ((A1 & _) & (_ & B2 & _) & (_ & _ & C3 & _) & _).
  exact (conj A1 (conj B2 C3)).
Defined.

(** Reading a variable that has just been written. *)
Lemma load_inserted (l : loc) (v : Z) (h : gmap loc Z) (o : list string)
    (c : nat → Z) (t : nat) :
  load (Some l) (mkWorld (<[l := v]> h) o c t)
  = Ok v (mkWorld (<[l := v]> h) o c t).
Proof. unfold load. cbn [heap]. by rewrite lookup_insert_eq. Qed.

(** C3, as the code has it: for a bound [n] that is a non-negative [int]
    and an increment [k] such that [n * k] is an [int64], a counter that
    starts from zero ends on [n * k], on the direct path and on the
    polymorphic path of every variant.  In variant A as written both
    handles hold [10^9] at the end of [main]; in variants B and C as
    written the concrete handle reads [10^9] after the first loop. *)
Theorem C3_zero_counter_ends_on_n_times_k
    (n k : Z) (l : loc) (w : World) (D : Duration → string) :
  0 ≤ n ≤ max_int64 →
  in_int64 (n * k) →
  heap w !! l = Some 0 →
  (ValueRecv.concrete_loop n k 0 w = Ok (n * k) w
   ∧ ValueRecv.interface_loop n k (ValueRecv.Summable_Int 0) w
     = Ok (ValueRecv.Summable_Int (n * k)) w)
  ∧ (PtrRecv.concrete_loop n k (Some l) w
     = Ok (Some l) (set_heap (<[l := n * k]> (heap w)) w)
     ∧ PtrRecv.interface_loop n k (PtrRecv.Summable_PtrInt (Some l)) w
       = Ok (PtrRecv.Summable_PtrInt (Some l))
            (set_heap (<[l := n * k]> (heap w)) w))
  ∧ (InPlace.concrete_loop n k (Some l) w
     = Ok (Some l) (set_heap (<[l := n * k]> (heap w)) w)
     ∧ InPlace.interface_loop n k (InPlace.Summable_PtrInt (Some l)) w
       = Ok (InPlace.Summable_PtrInt (Some l))
            (set_heap (<[l := n * k]> (heap w)) w))
  ∧ (∃ w', ValueRecv.main D w
           = Ok (1000000000, ValueRecv.Summable_Int 1000000000) w')
  ∧ (∃ p w1, bind (new_var 0) (PtrRecv.main_concrete D) w = Ok p w1
             ∧ load p w1 = Ok 1000000000 w1)
  ∧ (∃ p w1, bind (new_var 0) (InPlace.main_concrete D) w = Ok p w1
             ∧ load p w1 = Ok 1000000000 w1).
Proof.
  intros Hn Hnk Hl.
  assert (H0 : in_int64 0) by int64_bounds.
  assert (Hw : wrap64 (0 + Z.max 0 n * k) = n * k).
  { rewrite Z.max_r, Z.add_0_l by lia. by apply wrap64_id. }
  repeat apply conj.
  - rewrite ValueRecvFacts.vr_concrete_loop by (done || lia). by rewrite Hw.
  - rewrite ValueRecvFacts.vr_interface_loop by (done || lia). by rewrite Hw.
  - rewrite (PtrRecvFacts.pr_concrete_loop l n k 0) by (done || lia).
    by rewrite Hw.
  - rewrite (PtrRecvFacts.pr_interface_loop l n k 0) by (done || lia).
    by rewrite Hw.
  - rewrite (InPlaceFacts.ip_concrete_loop l n k 0) by (done || lia).
    by rewrite Hw.
  - rewrite (InPlaceFacts.ip_interface_loop l n k 0) by (done || lia).
    by rewrite Hw.
  - eexists. apply ValueRecvFacts.vr_main.
  - do 2 eexists. split; [apply PtrRecvFacts.pr_first_half|].
    apply load_inserted.
  - do 2 eexists. split; [apply InPlaceFacts.ip_first_half|].
    apply load_inserted.
Qed.

Lemma C3_witness :
  0 ≤ 3 ≤ max_int64
  ∧ in_int64 (3 * 10)
  ∧ heap (world_with 0) !! 1%positive = Some 0
  ∧ ValueRecv.concrete_loop 3 10 0 (world_with 0) = Ok (3 * 10) (world_with 0)
  ∧ PtrRecv.interface_loop 3 10 (PtrRecv.Summable_PtrInt (Some 1%positive))
      (world_with 0)
    = Ok (PtrRecv.Summable_PtrInt (Some 1%positive))
         (set_heap (<[1%positive := 3 * 10]> (heap (world_with 0)))
            (world_with 0)).
Proof.
  assert (H1 : 0 ≤ 3 ≤ max_int64) by (unfold max_int64; lia).
  assert (H2 : in_int64 (3 * 10))
    by (unfold in_int64, min_int64, max_int64; lia).
  assert (H3 : heap (world_with 0) !! 1%positive = Some 0) by reflexivity.
  destruct (C3_zero_counter_ends_on_n_times_k 3 10 1%positive (world_with 0)
              Duration_ns H1 H2 H3) as ((A1 & _) & (_ & B2) & _).
  exact (conj H1 (conj H2 (conj H3 (conj A1 B2)))).
Defined.

(** C3 as stated fails: with [n = 2] and [k = 2^62] the sum wraps around
    to [-2^63] on both paths; with [n = -1] no pass is made and the counter
    stays at [0]; and in variants B and C as written the interface handle
    reads [2 * 10^9], not [10^9], after the second loop. *)
Lemma C3_counterexample :
  ValueRecv.concrete_loop 2 4611686018427387904 0 world0
  ≠ Ok (2 * 4611686018427387904) world0
  ∧ ValueRecv.interface_loop 2 4611686018427387904
      (ValueRecv.Summable_Int 0) world0
    ≠ Ok (ValueRecv.Summable_Int (2 * 4611686018427387904)) world0
  ∧ ValueRecv.concrete_loop (-1) 10 0 world0 ≠ Ok (-1 * 10) world0
  ∧ (∃ zero p s w',
        PtrRecv.main Duration_ns world0 = Ok (zero, p, s) w'
        ∧ load (PtrRecv.Summable_ptr s) w' = Ok 2000000000 w'
        ∧ load (PtrRecv.Summable_ptr s) w' ≠ Ok 1000000000 w')
  ∧ (∃ zero p s w',
        InPlace.main Duration_ns world0 = Ok (zero, p, s) w'
        ∧ load (InPlace.Summable_ptr s) w' = Ok 2000000000 w'
        ∧ load (InPlace.Summable_ptr s) w' ≠ Ok 1000000000 w').
Proof.
  repeat apply conj.
  - intros H. vm_compute in H. discriminate H.
  - intros H. vm_compute in H. discriminate H.
  - intros H. vm_compute in H. discriminate H.
  - do 4 eexists. split; [apply PtrRecvFacts.pr_main|].
    cbn [PtrRecv.Summable_ptr]. rewrite load_inserted.
    split; [done|]. intros H. discriminate H.
  - do 4 eexists. split; [apply InPlaceFacts.ip_main|].
    cbn [InPlace.Summable_ptr]. rewrite load_inserted.
    split; [done|]. intros H. discriminate H.
Qed.

(** C4, evaluated on the programs as written: at the end of [main] the
    counters of variant A hold [10^9], while in variants B and C the one
    variable [zero], which both handles point to, holds [2 * 10^9]. *)
Theorem C4_final_counters_as_written (D : Duration → string) (w : World) :
  (∃ w', ValueRecv.main D w
         = Ok (1000000000, ValueRecv.Summable_Int 1000000000) w')
  ∧ (∃ zero w',
        PtrRecv.main D w
        = Ok (Some zero, Some zero, PtrRecv.Summable_PtrInt (Some zero)) w'
        ∧ load (Some zero) w' = Ok 2000000000 w')
  ∧ (∃ zero w',
        InPlace.main D w
        = Ok (Some zero, Some zero, InPlace.Summable_PtrInt (Some zero)) w'
        ∧ load (Some zero) w' = Ok 2000000000 w').
Proof.
  repeat apply conj.
  - eexists. apply ValueRecvFacts.vr_main.
  - do 2 eexists. split; [apply PtrRecvFacts.pr_main | apply load_inserted].
  - do 2 eexists. split; [apply InPlaceFacts.ip_main | apply load_inserted].
Qed.

(** C5: in variants B and C both timed sections of [main] are handed the
    address of the one variable [zero].  It holds [0] when the direct loop
    starts and [10^9] when that section ends, which is where the
    polymorphic section starts; when [main] ends it holds [2 * 10^9]. *)
Theorem C5_pointer_variants_share_zero (D : Duration → string) (w : World) :
  let zero := fresh (dom (heap w)) in
  (∃ w0 w1 w2,
      new_var 0 w = Ok (Some zero) w0
      ∧ load (Some zero) w0 = Ok 0 w0
      ∧ PtrRecv.main_concrete D (Some zero) w0 = Ok (Some zero) w1
      ∧ load (Some zero) w1 = Ok 1000000000 w1
      ∧ PtrRecv.main_interface D (Some zero) w1
        = Ok (PtrRecv.Summable_PtrInt (Some zero)) w2
      ∧ load (Some zero) w2 = Ok 2000000000 w2
      ∧ PtrRecv.main D w
        = Ok (Some zero, Some zero, PtrRecv.Summable_PtrInt (Some zero)) w2)
  ∧ (∃ w0 w1 w2,
      new_var 0 w = Ok (Some zero) w0
      ∧ load (Some zero) w0 = Ok 0 w0
      ∧ InPlace.main_concrete D (Some zero) w0 = Ok (Some zero) w1
      ∧ load (Some zero) w1 = Ok 1000000000 w1
      ∧ InPlace.main_interface D (Some zero) w1
        = Ok (InPlace.Summable_PtrInt (Some zero)) w2
      ∧ load (Some zero) w2 = Ok 2000000000 w2
      ∧ InPlace.main D w
        = Ok (Some zero, Some zero, InPlace.Summable_PtrInt (Some zero)) w2).
Proof.
  intros zero.
  assert (H0 : in_int64 0) by int64_bounds.
  assert (H1 : in_int64 (0 + 1000000000)) by int64_bounds.
  assert (H2 : in_int64 1000000000) by int64_bounds.
  assert (H3 : in_int64 (1000000000 + 1000000000)) by int64_bounds.
  split.
  - do 3 eexists. split; [reflexivity|]. fold zero.
    split; [apply load_inserted|].
    split; [apply (PtrRecvFacts.pr_main_concrete D zero 0);
            [apply lookup_insert_eq | done | done]|].
    split; [apply load_inserted|].
    split; [apply (PtrRecvFacts.pr_main_interface D zero 1000000000);
            [apply lookup_insert_eq | done | done]|].
    split; [apply load_inserted|].
    rewrite PtrRecvFacts.pr_main. fold zero.
    unfold set_heap. cbn [heap stdout clock ticks Nat.add].
    by rewrite !insert_insert_eq, <- app_assoc.
  - do 3 eexists. split; [reflexivity|]. fold zero.
    split; [apply load_inserted|].
    split; [apply (InPlaceFacts.ip_main_concrete D zero 0);
            [apply lookup_insert_eq | done | done]|].
    split; [apply load_inserted|].
    split; [apply (InPlaceFacts.ip_main_interface D zero 1000000000);
            [apply lookup_insert_eq | done | done]|].
    split; [apply load_inserted|].
    rewrite InPlaceFacts.ip_main. fold zero.
    unfold set_heap. cbn [heap stdout clock ticks Nat.add].
    by rewrite !insert_insert_eq, <- app_assoc.
Qed.

(** C6: with the bound [10^8] and the increment [10] the addition in [Sum]
    never overflows.  After [j] passes, for every [j] from [0] to [10^8],
    the counter of each loop holds [10 * j] (loops started on zero) or
    [10^9 + 10 * j] (the polymorphic loops of variants B and C, started on
    the [10^9] the direct loop left in [zero]); these values lie strictly
    inside the [int64] range and do not exceed [2 * 10^9], and adding [10]
    to them gives an [int64] again, so that [Sum] returns the exact sum.
    The state after [j] passes of a loop is the result of the loop with
    bound [j]: the full loop is that loop followed by the remaining
    passes. *)
Theorem C6_no_overflow_at_fixed_parameters (j : Z) (l : loc) (w w' : World) :
  0 ≤ j ≤ ValueRecv.nbOps →
  heap w !! l = Some 0 →
  heap w' !! l = Some 1000000000 →
  (PtrRecv.nbOps = ValueRecv.nbOps ∧ InPlace.nbOps = ValueRecv.nbOps)
  ∧ (ValueRecv.concrete_loop j 10 0 w = Ok (10 * j) w
     ∧ ValueRecv.interface_loop j 10 (ValueRecv.Summable_Int 0) w
       = Ok (ValueRecv.Summable_Int (10 * j)) w)
  ∧ (PtrRecv.concrete_loop j 10 (Some l) w
     = Ok (Some l) (set_heap (<[l := 10 * j]> (heap w)) w)
     ∧ PtrRecv.interface_loop j 10 (PtrRecv.Summable_PtrInt (Some l)) w'
       = Ok (PtrRecv.Summable_PtrInt (Some l))
            (set_heap (<[l := 1000000000 + 10 * j]> (heap w')) w'))
  ∧ (InPlace.concrete_loop j 10 (Some l) w
     = Ok (Some l) (set_heap (<[l := 10 * j]> (heap w)) w)
     ∧ InPlace.interface_loop j 10 (InPlace.Summable_PtrInt (Some l)) w'
       = Ok (InPlace.Summable_PtrInt (Some l))
            (set_heap (<[l := 1000000000 + 10 * j]> (heap w')) w'))
  ∧ (min_int64 < 10 * j < max_int64
     ∧ min_int64 < 1000000000 + 10 * j < max_int64
     ∧ 10 * j ≤ 2000000000
     ∧ 1000000000 + 10 * j ≤ 2000000000)
  ∧ (in_int64 (10 * j + 10)
     ∧ in_int64 (1000000000 + 10 * j + 10)
     ∧ ValueRecv.Sum (10 * j) 10 = 10 * j + 10
     ∧ wrap64 (1000000000 + 10 * j + 10) = 1000000000 + 10 * j + 10)
  ∧ (∀ (S : Type) (body : S → M S) (s : S) (u : World),
        for_loop ValueRecv.nbOps body s u
        = bind (for_loop j body s)
               (iterM (Z.to_nat (ValueRecv.nbOps - j)) body) u).
Proof.
  intros Hj Hl Hl'.
  assert (Hn : j ≤ max_int64) by int64_bounds.
  assert (H0 : in_int64 0) by int64_bounds.
  assert (H1 : in_int64 1000000000) by int64_bounds.
  assert (Hw : wrap64 (0 + Z.max 0 j * 10) = 10 * j).
  { replace (0 + Z.max 0 j * 10) with (10 * j) by lia.
    apply wrap64_id. int64_bounds. }
  assert (Hw' : wrap64 (1000000000 + Z.max 0 j * 10) = 1000000000 + 10 * j).
  { replace (1000000000 + Z.max 0 j * 10) with (1000000000 + 10 * j) by lia.
    apply wrap64_id. int64_bounds. }
  split; [by split|].
  split; [split|].
  { rewrite ValueRecvFacts.vr_concrete_loop by done. by rewrite Hw. }
  { rewrite ValueRecvFacts.vr_interface_loop by done. by rewrite Hw. }
  split; [split|].
  { rewrite (PtrRecvFacts.pr_concrete_loop l j 10 0) by done. by rewrite Hw. }
  { rewrite (PtrRecvFacts.pr_interface_loop l j 10 1000000000) by done.
    by rewrite Hw'. }
  split; [split|].
  { rewrite (InPlaceFacts.ip_concrete_loop l j 10 0) by done. by rewrite Hw. }
  { rewrite (InPlaceFacts.ip_interface_loop l j 10 1000000000) by done.
    by rewrite Hw'. }
  split; [int64_bounds|].
  split.
  { unfold ValueRecv.Sum. rewrite !wrap64_id by int64_bounds.
    repeat split; int64_bounds. }
  intros S body s u. apply for_loop_prefix; [done | int64_bounds].
Qed.

Lemma C6_witness :
  0 ≤ 100000000 ≤ ValueRecv.nbOps
  ∧ heap (world_with 0) !! 1%positive = Some 0
  ∧ heap (world_with 1000000000) !! 1%positive = Some 1000000000
  ∧ PtrRecv.interface_loop 100000000 10
      (PtrRecv.Summable_PtrInt (Some 1%positive)) (world_with 1000000000)
    = Ok (PtrRecv.Summable_PtrInt (Some 1%positive))
         (set_heap (<[1%positive := 1000000000 + 10 * 100000000]>
                      (heap (world_with 1000000000)))
            (world_with 1000000000))
  ∧ 1000000000 + 10 * 100000000 ≤ 2000000000.
Proof.
  assert (H1 : 0 ≤ 100000000 ≤ ValueRecv.nbOps)
    by (unfold ValueRecv.nbOps; lia).
  assert (H2 : heap (world_with 0) !! 1%positive = Some 0) by reflexivity.
  assert (H3 : heap (world_with 1000000000) !! 1%positive = Some 1000000000)
    by reflexivity.
  destruct (C6_no_overflow_at_fixed_parameters 100000000 1%positive
              (world_with 0) (world_with 1000000000) H1 H2 H3)
    as (_ & _ & (_ & B2) & _ & (_ & _ & _ & Hle) & _).
  exact (conj H1 (conj H2 (conj H3 (conj B2 Hle)))).
Defined.

(** C7: a run of each program appends exactly two strings to standard
    output, first the report labelled [[concrete]], then the one labelled
    [[interface]]; each contains the iteration count [100000000], the
    duration between the two clock readings around its loop as formatted
    by [Duration.String], and ends the line. *)
Theorem C7_two_report_lines (D : Duration → string) (w : World) :
  let t (i : nat) := clock w (i + ticks w)%nat in
  let out :=
    stdout w
    ++ ["[concrete]  computed 100000000 sums in "
        +:+ D (Time_Sub (t 1%nat) (t 0%nat)) +:+ newline;
        "[interface] computed 100000000 sums in "
        +:+ D (Time_Sub (t 3%nat) (t 2%nat)) +:+ newline] in
  (∃ r w', ValueRecv.main D w = Ok r w' ∧ stdout w' = out)
  ∧ (∃ r w', PtrRecv.main D w = Ok r w' ∧ stdout w' = out)
  ∧ (∃ r w', InPlace.main D w = Ok r w' ∧ stdout w' = out)
  ∧ length out = (length (stdout w) + 2)%nat.
Proof.
  intros t out. repeat apply conj.
  - do 2 eexists. split; [apply ValueRecvFacts.vr_main | reflexivity].
  - do 2 eexists. split; [apply PtrRecvFacts.pr_main | reflexivity].
  - do 2 eexists. split; [apply InPlaceFacts.ip_main | reflexivity].
  - unfold out. by rewrite length_app.
Qed.

(** C10: in variant B [Sum] returns the very pointer it was called on, so
    the assignment [iConcreteP = iConcreteP.Sum(Int(10))] never redirects
    the handle.  After [j] passes, for every [j] from [0] to [10^8], a
    handle that held [&zero] still holds [&zero], in the direct loop and in
    the polymorphic loop alike, and the passes have changed the variable
    [zero] and nothing else in the heap.  At the end of [main] both handles
    hold [&zero] and the heap differs from the initial one in [zero]
    only. *)
Theorem C10_Sum_returns_its_receiver
    (i r : ptr) (i2 : Z) (wa wb : World)
    (j : Z) (zero : loc) (w0 w1 : World)
    (D : Duration → string) (w : World) :
  PtrRecv.Sum i i2 wa = Ok r wb →
  0 ≤ j ≤ PtrRecv.nbOps →
  heap w0 !! zero = Some 0 →
  heap w1 !! zero = Some 1000000000 →
  r = i
  ∧ PtrRecv.concrete_loop j 10 (Some zero) w0
    = Ok (Some zero) (set_heap (<[zero := 10 * j]> (heap w0)) w0)
  ∧ PtrRecv.interface_loop j 10 (PtrRecv.Summable_PtrInt (Some zero)) w1
    = Ok (PtrRecv.Summable_PtrInt (Some zero))
         (set_heap (<[zero := 1000000000 + 10 * j]> (heap w1)) w1)
  ∧ (∃ z w',
        PtrRecv.main D w
        = Ok (Some z, Some z, PtrRecv.Summable_PtrInt (Some z)) w'
        ∧ z = fresh (dom (heap w))
        ∧ heap w' = <[z := 2000000000]> (heap w)).
Proof.
  intros HSum Hj H0 H1.
  split; [by apply (PtrRecvFacts.pr_Sum_returns_receiver i r i2 wa wb)|].
  assert (Hn : j ≤ max_int64) by int64_bounds.
  split; [|split].
  - rewrite (PtrRecvFacts.pr_concrete_loop zero j 10 0)
      by (done || int64_bounds).
    replace (0 + Z.max 0 j * 10) with (10 * j) by lia.
    rewrite wrap64_id by int64_bounds. done.
  - rewrite (PtrRecvFacts.pr_interface_loop zero j 10 1000000000)
      by (done || int64_bounds).
    replace (1000000000 + Z.max 0 j * 10) with (1000000000 + 10 * j) by lia.
    rewrite wrap64_id by int64_bounds. done.
  - do 2 eexists. split; [apply PtrRecvFacts.pr_main|]. done.
Qed.

Lemma C10_witness :
  PtrRecv.Sum (Some 1%positive) 10 (world_with 5)
  = Ok (Some 1%positive) (world_with 15)
  ∧ 0 ≤ 100000000 ≤ PtrRecv.nbOps
  ∧ heap (world_with 0) !! 1%positive = Some 0
  ∧ heap (world_with 1000000000) !! 1%positive = Some 1000000000
  ∧ Some 1%positive = Some 1%positive
  ∧ PtrRecv.concrete_loop 100000000 10 (Some 1%positive) (world_with 0)
    = Ok (Some 1%positive)
         (set_heap (<[1%positive := 10 * 100000000]> (heap (world_with 0)))
            (world_with 0)).
Proof.
  assert (H1 : PtrRecv.Sum (Some 1%positive) 10 (world_with 5)
               = Ok (Some 1%positive) (world_with 15))
    by (vm_compute; reflexivity).
  assert (H2 : 0 ≤ 100000000 ≤ PtrRecv.nbOps) by (unfold PtrRecv.nbOps; lia).
  assert (H3 : heap (world_with 0) !! 1%positive = Some 0) by reflexivity.
  assert (H4 : heap (world_with 1000000000) !! 1%positive = Some 1000000000)
    by reflexivity.
  destruct (C10_Sum_returns_its_receiver (Some 1%positive) (Some 1%positive)
              10 (world_with 5) (world_with 15) 100000000 1%positive
              (world_with 0) (world_with 1000000000) Duration_ns world0
              H1 H2 H3 H4) as (R & L1 & _).
  exact (conj H1 (conj H2 (conj H3 (conj H4 (conj R L1))))).
Defined.


(** * Further properties of the code *)

(** ** Auxiliary facts *)

Lemma wrap64_add_r (a b : Z) : wrap64 (a + wrap64 b) = wrap64 (a + b).
Proof. by rewrite (Z.add_comm a), wrap64_add_l, (Z.add_comm b). Qed.



(** A bound in [int] between two values of a linear progression that are
    [int64]s is an [int64]. *)
Lemma in_int64_between (v k j n : Z) :
  0 ≤ j ≤ n → in_int64 v → in_int64 (v + n * k) → in_int64 (v + j * k).
Proof.
  unfold in_int64, min_int64, max_int64. intros Hj Hv Hn.
  destruct (Z.le_gt_cases 0 k); nia.
Qed.



(** The value loop and the pointer loop compute the same number. *)
Lemma vr_pr_iter (l : loc) (k : Z) (n : nat) :
  ∀ (v : Z) (w wA : World),
    heap w !! l = Some v →
    ∃ v', iterM n (ValueRecv.concrete_body k) v wA = Ok v' wA
          ∧ iterM n (PtrRecv.concrete_body k) (Some l) w
            = Ok (Some l) (set_heap (<[l := v']> (heap w)) w).
Proof.
  induction n as [|n IH]; intros v w wA Hl.
  - exists v. split; [done|]. cbn [iterM]. unfold ret. f_equal. symmetry.
    by apply set_heap_id.
  - cbn [iterM]. unfold PtrRecv.concrete_body at 1.
    unfold ValueRecv.concrete_body at 1. unfold bind.
    rewrite (PtrRecvFacts.pr_Sum l k v w Hl). unfold ret, ValueRecv.Sum.
    destruct (IH (wrap64 (v + k))
                (set_heap (<[l := wrap64 (v + k)]> (heap w)) w) wA)
      as (v' & HA & HB); [apply lookup_insert_eq|].
    exists v'. split; [done|]. by rewrite HB, set_heap_twice.
Qed.

(** ** The method [Sum] *)

(** X1: the value-receiver [Sum] is addition modulo [2^64]: its result is
    always an [int64], it is commutative and associative also when sums
    overflow, adding [0] to an [int64] returns it, and adding [k] and then
    [-k] (as Go computes it) returns the [int64] one started from. *)
Theorem X1_value_Sum_is_modular_addition (a b c : Z) :
  in_int64 a →
  in_int64 (ValueRecv.Sum a b)
  ∧ ValueRecv.Sum a b = ValueRecv.Sum b a
  ∧ ValueRecv.Sum (ValueRecv.Sum a b) c = ValueRecv.Sum a (ValueRecv.Sum b c)
  ∧ ValueRecv.Sum a 0 = a
  ∧ ValueRecv.Sum (ValueRecv.Sum a b) (wrap64 (- b)) = a.
Proof.
  intros Ha. unfold ValueRecv.Sum.
  split; [apply wrap64_range|]. repeat apply conj.
  - by rewrite Z.add_comm.
  - by rewrite wrap64_add_l, wrap64_add_r, Z.add_assoc.
  - rewrite Z.add_0_r. by apply wrap64_id.
  - rewrite wrap64_add_l, wrap64_add_r.
    replace (a + b + - b) with a by lia. by apply wrap64_id.
Qed.

Lemma X1_witness :
  in_int64 9223372036854775807
  ∧ ValueRecv.Sum (ValueRecv.Sum 9223372036854775807 10) (wrap64 (- 10))
    = 9223372036854775807.
Proof.
  assert (H : in_int64 9223372036854775807)
    by (unfold in_int64, min_int64, max_int64; lia).
  destruct (X1_value_Sum_is_modular_addition 9223372036854775807 10 0 H)
    as (_ & _ & _ & _ & R).
  exact (conj H R).
Defined.

(** X2: calls of the pointer-receiver [Sum] compose.  In variant B the
    chain [i.Sum(a).Sum(b)], and in variant C the sequence [i.Sum(a);
    i.Sum(b)], do exactly what the single call [i.Sum(a + b)] does, with
    [a + b] computed in [Int]: the same result, the same final world, and
    the same panic when [i] is [nil]. *)
Theorem X2_pointer_Sum_calls_compose (p : ptr) (a b : Z) (w : World) :
  bind (PtrRecv.Sum p a) (λ q, PtrRecv.Sum q b) w
  = PtrRecv.Sum p (wrap64 (a + b)) w
  ∧ bind (InPlace.Sum p a) (λ _, InPlace.Sum p b) w
    = InPlace.Sum p (wrap64 (a + b)) w.
Proof.
  destruct p as [l|]; [|done].
  destruct (heap w !! l) as [v|] eqn:E.
  - split.
    + unfold bind at 1. rewrite !(PtrRecvFacts.pr_Sum l _ v w E).
      rewrite (PtrRecvFacts.pr_Sum l b (wrap64 (v + a)))
        by apply lookup_insert_eq.
      by rewrite set_heap_twice, wrap64_add_l, wrap64_add_r, Z.add_assoc.
    + unfold bind at 1. rewrite !(InPlaceFacts.ip_Sum l _ v w E).
      rewrite (InPlaceFacts.ip_Sum l b (wrap64 (v + a)))
        by apply lookup_insert_eq.
      by rewrite set_heap_twice, wrap64_add_l, wrap64_add_r, Z.add_assoc.
  - unfold PtrRecv.Sum, InPlace.Sum, bind, load. by rewrite E.
Qed.

(** X3: on a variable holding an [int64], adding [k] through the pointer
    receiver and then adding [-k] restores the world exactly, in variant B
    (chained) and in variant C (in sequence). *)
Theorem X3_pointer_Sum_undo (l : loc) (k v : Z) (w : World) :
  heap w !! l = Some v →
  in_int64 v →
  bind (PtrRecv.Sum (Some l) k) (λ q, PtrRecv.Sum q (wrap64 (- k))) w
  = Ok (Some l) w
  ∧ bind (InPlace.Sum (Some l) k)
      (λ _, InPlace.Sum (Some l) (wrap64 (- k))) w
    = Ok tt w.
Proof.
  intros Hl Hv.
  assert (Hw : wrap64 (wrap64 (v + k) + wrap64 (- k)) = v).
  { rewrite wrap64_add_l, wrap64_add_r.
    replace (v + k + - k) with v by lia. by apply wrap64_id. }
  split.
  - unfold bind. rewrite (PtrRecvFacts.pr_Sum l k v w Hl).
    rewrite (PtrRecvFacts.pr_Sum l _ (wrap64 (v + k)))
      by apply lookup_insert_eq.
    by rewrite set_heap_twice, Hw, set_heap_id.
  - unfold bind. rewrite (InPlaceFacts.ip_Sum l k v w Hl).
    rewrite (InPlaceFacts.ip_Sum l _ (wrap64 (v + k)))
      by apply lookup_insert_eq.
    by rewrite set_heap_twice, Hw, set_heap_id.
Qed.

Lemma X3_witness :
  heap (world_with 5) !! 1%positive = Some 5
  ∧ in_int64 5
  ∧ bind (PtrRecv.Sum (Some 1%positive) 9223372036854775807)
      (λ q, PtrRecv.Sum q (wrap64 (- 9223372036854775807))) (world_with 5)
    = Ok (Some 1%positive) (world_with 5).
Proof.
  assert (H1 : heap (world_with 5) !! 1%positive = Some 5) by reflexivity.
  assert (H2 : in_int64 5) by (unfold in_int64, min_int64, max_int64; lia).
  destruct (X3_pointer_Sum_undo 1%positive 9223372036854775807 5
              (world_with 5) H1 H2) as [R _].
  exact (conj H1 (conj H2 R)).
Defined.

(** ** The loops, for any bound and increment *)

(** X4: for every [int] bound [n], every increment [k] and every [int64]
    start value [v], each of the six loops returns, and leaves the counter
    at [v + max 0 n * k] reduced modulo [2^64] into the [int64] range: the
    loops compute the exact sum modulo overflow, and a bound below zero
    leaves the counter alone. *)
Theorem X4_loops_closed_form_modulo_overflow
    (n k v : Z) (l : loc) (w : World) :
  n ≤ max_int64 →
  in_int64 v →
  heap w !! l = Some v →
  ValueRecv.concrete_loop n k v w = Ok (wrap64 (v + Z.max 0 n * k)) w
  ∧ ValueRecv.interface_loop n k (ValueRecv.Summable_Int v) w
    = Ok (ValueRecv.Summable_Int (wrap64 (v + Z.max 0 n * k))) w
  ∧ PtrRecv.concrete_loop n k (Some l) w
    = Ok (Some l) (set_heap (<[l := wrap64 (v + Z.max 0 n * k)]> (heap w)) w)
  ∧ PtrRecv.interface_loop n k (PtrRecv.Summable_PtrInt (Some l)) w
    = Ok (PtrRecv.Summable_PtrInt (Some l))
         (set_heap (<[l := wrap64 (v + Z.max 0 n * k)]> (heap w)) w)
  ∧ InPlace.concrete_loop n k (Some l) w
    = Ok (Some l) (set_heap (<[l := wrap64 (v + Z.max 0 n * k)]> (heap w)) w)
  ∧ InPlace.interface_loop n k (InPlace.Summable_PtrInt (Some l)) w
    = Ok (InPlace.Summable_PtrInt (Some l))
         (set_heap (<[l := wrap64 (v + Z.max 0 n * k)]> (heap w)) w).
Proof.
  intros Hn Hv Hl. repeat apply conj.
  - by apply ValueRecvFacts.vr_concrete_loop.
  - by apply ValueRecvFacts.vr_interface_loop.
  - by apply PtrRecvFacts.pr_concrete_loop.
  - by apply PtrRecvFacts.pr_interface_loop.
  - by apply InPlaceFacts.ip_concrete_loop.
  - by apply InPlaceFacts.ip_interface_loop.
Qed.

Lemma X4_witness :
  3 ≤ max_int64
  ∧ in_int64 5
  ∧ heap (world_with 5) !! 1%positive = Some 5
  ∧ ValueRecv.concrete_loop 3 4611686018427387904 5 (world_with 5)
    = Ok (wrap64 (5 + Z.max 0 3 * 4611686018427387904)) (world_with 5)
  ∧ InPlace.interface_loop 3 4611686018427387904
      (InPlace.Summable_PtrInt (Some 1%positive)) (world_with 5)
    = Ok (InPlace.Summable_PtrInt (Some 1%positive))
         (set_heap
            (<[1%positive := wrap64 (5 + Z.max 0 3 * 4611686018427387904)]>
               (heap (world_with 5)))
            (world_with 5)).
Proof.
  assert (H1 : 3 ≤ max_int64) by (unfold max_int64; lia).
  assert (H2 : in_int64 5) by (unfold in_int64, min_int64, max_int64; lia).
  assert (H3 : heap (world_with 5) !! 1%positive = Some 5) by reflexivity.
  destruct (X4_loops_closed_form_modulo_overflow 3 4611686018427387904 5
              1%positive (world_with 5) H1 H2 H3)
    as (A1 & _ & _ & _ & _ & C2).
  exact (conj H1 (conj H2 (conj H3 (conj A1 C2)))).
Defined.

(** X5: the overflow bound for other parameters.  Whenever the start value
    [v] and the final sum [v + n * k] are [int64]s, no pass of any loop
    with bound [n] overflows: after [j] passes, for every [j] from [0] to
    [n], the counter holds exactly [v + j * k], an [int64], whatever the
    sign of [k]. *)
Theorem X5_no_overflow_when_final_sum_fits
    (j n k v : Z) (l : loc) (w : World) :
  0 ≤ j ≤ n →
  n ≤ max_int64 →
  in_int64 v →
  in_int64 (v + n * k) →
  heap w !! l = Some v →
  in_int64 (v + j * k)
  ∧ ValueRecv.concrete_loop j k v w = Ok (v + j * k) w
  ∧ ValueRecv.interface_loop j k (ValueRecv.Summable_Int v) w
    = Ok (ValueRecv.Summable_Int (v + j * k)) w
  ∧ PtrRecv.concrete_loop j k (Some l) w
    = Ok (Some l) (set_heap (<[l := v + j * k]> (heap w)) w)
  ∧ PtrRecv.interface_loop j k (PtrRecv.Summable_PtrInt (Some l)) w
    = Ok (PtrRecv.Summable_PtrInt (Some l))
         (set_heap (<[l := v + j * k]> (heap w)) w)
  ∧ InPlace.concrete_loop j k (Some l) w
    = Ok (Some l) (set_heap (<[l := v + j * k]> (heap w)) w)
  ∧ InPlace.interface_loop j k (InPlace.Summable_PtrInt (Some l)) w
    = Ok (InPlace.Summable_PtrInt (Some l))
         (set_heap (<[l := v + j * k]> (heap w)) w).
Proof.
  intros Hj Hn Hv Hvn Hl.
  assert (Hjk : in_int64 (v + j * k)) by by apply (in_int64_between v k j n).
  assert (Hj' : j ≤ max_int64) by lia.
  assert (Hw : wrap64 (v + Z.max 0 j * k) = v + j * k).
  { rewrite Z.max_r by lia. by apply wrap64_id. }
  split; [done|]. repeat apply conj.
  - rewrite ValueRecvFacts.vr_concrete_loop by done. by rewrite Hw.
  - rewrite ValueRecvFacts.vr_interface_loop by done. by rewrite Hw.
  - rewrite (PtrRecvFacts.pr_concrete_loop l j k v) by done. by rewrite Hw.
  - rewrite (PtrRecvFacts.pr_interface_loop l j k v) by done. by rewrite Hw.
  - rewrite (InPlaceFacts.ip_concrete_loop l j k v) by done. by rewrite Hw.
  - rewrite (InPlaceFacts.ip_interface_loop l j k v) by done. by rewrite Hw.
Qed.

Lemma X5_witness :
  0 ≤ 2 ≤ 4
  ∧ 4 ≤ max_int64
  ∧ in_int64 100
  ∧ in_int64 (100 + 4 * -30)
  ∧ heap (world_with 100) !! 1%positive = Some 100
  ∧ in_int64 (100 + 2 * -30)
  ∧ PtrRecv.concrete_loop 2 (-30) (Some 1%positive) (world_with 100)
    = Ok (Some 1%positive)
         (set_heap (<[1%positive := 100 + 2 * -30]> (heap (world_with 100)))
            (world_with 100)).
Proof.
  assert (H1 : 0 ≤ 2 ≤ 4) by lia.
  assert (H2 : 4 ≤ max_int64) by (unfold max_int64; lia).
  assert (H3 : in_int64 100) by (unfold in_int64, min_int64, max_int64; lia).
  assert (H4 : in_int64 (100 + 4 * -30))
    by (unfold in_int64, min_int64, max_int64; lia).
  assert (H5 : heap (world_with 100) !! 1%positive = Some 100)
    by reflexivity.
  destruct (X5_no_overflow_when_final_sum_fits 2 4 (-30) 100 1%positive
              (world_with 100) H1 H2 H3 H4 H5) as (R & _ & _ & B1 & _).
  exact (conj H1 (conj H2 (conj H3 (conj H4 (conj H5 (conj R B1)))))).
Defined.




(** ** The variants against each other *)


(** X9: the pointer receiver computes what the value receiver computes.
    For every [int] bound and every increment, started on a variable that
    holds [v], the direct loop of variant B leaves in that variable the
    very number the direct loop of variant A returns when started on [v],
    also when sums overflow. *)
Theorem X9_pointer_loop_matches_value_loop
    (n k v : Z) (l : loc) (w : World) :
  n ≤ max_int64 →
  heap w !! l = Some v →
  ∃ v' w',
    ValueRecv.concrete_loop n k v w = Ok v' w
    ∧ PtrRecv.concrete_loop n k (Some l) w = Ok (Some l) w'
    ∧ load (Some l) w' = Ok v' w'
    ∧ (∀ l', l' ≠ l → heap w' !! l' = heap w !! l').
Proof.
  intros Hn Hl.
  destruct (vr_pr_iter l k (Z.to_nat n) v w w Hl) as (v' & HA & HB).
  exists v', (set_heap (<[l := v']> (heap w)) w).
  unfold ValueRecv.concrete_loop, PtrRecv.concrete_loop.
  rewrite !for_loop_iter by done. repeat apply conj; [done | done | |].
  - unfold load, set_heap. cbn [heap]. by rewrite lookup_insert_eq.
  - intros l' Hne. unfold set_heap. cbn [heap]. by rewrite lookup_insert_ne.
Qed.

Lemma X9_witness :
  2 ≤ max_int64
  ∧ heap (world_with 7) !! 1%positive = Some 7
  ∧ ∃ v' w',
      ValueRecv.concrete_loop 2 4611686018427387904 7 (world_with 7)
      = Ok v' (world_with 7)
      ∧ PtrRecv.concrete_loop 2 4611686018427387904 (Some 1%positive)
          (world_with 7)
        = Ok (Some 1%positive) w'
      ∧ load (Some 1%positive) w' = Ok v' w'
      ∧ (∀ l', l' ≠ 1%positive →
               heap w' !! l' = heap (world_with 7) !! l').
Proof.
  assert (H1 : 2 ≤ max_int64) by (unfold max_int64; lia).
  assert (H2 : heap (world_with 7) !! 1%positive = Some 7) by reflexivity.
  exact (conj H1 (conj H2
           (X9_pointer_loop_matches_value_loop 2 4611686018427387904 7
              1%positive (world_with 7) H1 H2))).
Defined.

(** ** Complete runs *)

